(** * build_snli_hard_challenge.py: a shallow embedding and its properties

    The script filters the SNLI train split down to a "hard" slice
    (no negation word in the hypothesis, more than ten hypothesis tokens,
    Jaccard overlap below 0.2), samples at most [max_per_label] examples per
    gold label and writes them as line-delimited JSON.

    Python values are modelled as follows.
    - [str]: a sequence of Unicode code points, [list N].
    - [set]: stdpp's [gset]; [len] is [size].
    - [float]: IEEE binary64 through the Standard Library's [SpecFloat]
      (prec = 53, emax = 1024).
    - the insertion-ordered [dict] [by_label]: an association list.
    - the module-level generator of [random]: an explicit state threaded
      through [main]; exceptions: [None] in the result. *)

From Stdlib Require Import ZArith NArith List Ascii String SpecFloat Lia.
From Stdlib Require Import DecimalString DecimalZ DecimalPos.
From stdpp Require Import base gmap sets list.

Open Scope N_scope.

(** ** The Python runtime the script relies on *)

Module Py.

Abbreviation str := (list N).

(** A Rocq literal read as a Python string (one code point per byte). *)
Definition of_string (s : string) : str :=
  N_of_ascii <$> list_ascii_of_string s.

(** [str.lower] on ASCII text; on other text the script's [lower] is a
    parameter, see Section [Script]. *)
Definition ascii_lower_char (c : N) : N :=
  if (65 <=? c) && (c <=? 90) then c + 32 else c.

Definition ascii_lower (text : str) : str := ascii_lower_char <$> text.

Definition is_ascii (c : N) : Prop := c < 128.

(** The character class [a-z0-9] of the regular expression. *)
Definition az09 (c : N) : bool :=
  ((97 <=? c) && (c <=? 122)) || ((48 <=? c) && (c <=? 57)).

(** [re.sub(r"[^a-z0-9]+", " ", text)]: every maximal run of characters
    outside the class becomes one space. [in_run] tells that the previous
    character already belonged to the run being replaced. *)
Fixpoint re_sub_runs (in_run : bool) (text : str) : str :=
  match text with
  | [] => []
  | c :: rest =>
      if az09 c then c :: re_sub_runs false rest
      else if in_run then re_sub_runs true rest
      else 32 :: re_sub_runs true rest
  end.

Definition re_sub_not_az09 (text : str) : str := re_sub_runs false text.

(** [str.isspace] for one code point. *)
Definition isspace (c : N) : bool :=
  ((9 <=? c) && (c <=? 13)) || ((28 <=? c) && (c <=? 32))
  || (c =? 133) || (c =? 160) || (c =? 5760)
  || ((8192 <=? c) && (c <=? 8202))
  || (c =? 8232) || (c =? 8233) || (c =? 8239) || (c =? 8287)
  || (c =? 12288).

(** [text.split()]: the maximal runs of non-space characters, in order.
    [word] holds the run being read, last character first. *)
Definition flush (word : str) (words : list str) : list str :=
  match word with
  | [] => words
  | _ :: _ => rev word :: words
  end.

Fixpoint split_from (word : str) (text : str) : list str :=
  match text with
  | [] => flush word []
  | c :: rest =>
      if isspace c then flush word (split_from [] rest)
      else split_from (c :: word) rest
  end.

Definition split (text : str) : list str := split_from [] text.

(** *** Floats: IEEE binary64 *)

Definition prec : Z := 53.
Definition emax : Z := 1024.

Abbreviation float := spec_float.

(** The literals [0.0] and [0.2] (the double nearest to 1/5) and the
    value 1.0. *)
Definition float_0_0 : float := S754_zero false.
Definition float_0_2 : float := S754_finite false 7205759403792794 (-55).
Definition float_1_0 : float := S754_finite false 4503599627370496 (-52).

(** [x >= y], [x <= y] and [x < y] on floats; all false on a NaN. *)
Definition float_ge (x y : float) : bool := SFleb y x.
Definition float_le (x y : float) : bool := SFleb x y.
Definition float_lt (x y : float) : bool := SFltb x y.

(** [a / b] on non-negative [int]s: the quotient rounded once, to nearest
    even, whatever the size of the operands. [None] is the exception
    ([ZeroDivisionError], or [OverflowError] when the quotient exceeds the
    largest double). *)
Definition int_truediv (a b : N) : option float :=
  match b with
  | N0 => None
  | Npos d =>
      match a with
      | N0 => Some float_0_0
      | Npos n =>
          let '(m, e, l) := SFdiv_core_binary prec emax (Zpos n) 0 (Zpos d) 0 in
          match binary_round_aux prec emax false m e l with
          | S754_infinity _ => None
          | r => Some r
          end
      end
  end.

(** *** Lists *)

(** The slice [l[:stop]]; a negative [stop] counts from the end. *)
Definition slice_to {A} (l : list A) (stop : Z) : list A :=
  if (0 <=? stop)%Z then take (Z.to_nat stop) l
  else take (Z.to_nat (Z.of_nat (length l) + stop)) l.

(** *** [json.dumps] with its default arguments, on a flat [dict] *)

Inductive json_value :=
| JStr (s : str)
| JInt (z : Z).

(** A [dict] in insertion order. *)
Abbreviation json_dict := (list (str * json_value)).

Definition hex_digit (d : N) : N := if d <? 10 then 48 + d else 87 + d.

(** The escape [\uXXXX] of a 16-bit unit. *)
Definition escape_u (c : N) : str :=
  [92; 117;
   hex_digit (N.land (N.shiftr c 12) 15);
   hex_digit (N.land (N.shiftr c 8) 15);
   hex_digit (N.land (N.shiftr c 4) 15);
   hex_digit (N.land c 15)].

Definition high_surrogate (c : N) : N := 55296 + N.shiftr (c - 65536) 10.
Definition low_surrogate (c : N) : N := 56320 + N.land c 1023.

(** [ensure_ascii=True]: printable ASCII but for the quote and the
    backslash is kept, everything else is escaped. *)
Definition escape_char (c : N) : str :=
  if c =? 34 then [92; 34]
  else if c =? 92 then [92; 92]
  else if c =? 10 then [92; 110]
  else if c =? 13 then [92; 114]
  else if c =? 9 then [92; 116]
  else if c =? 8 then [92; 98]
  else if c =? 12 then [92; 102]
  else if (32 <=? c) && (c <=? 126) then [c]
  else if c <? 65536 then escape_u c
  else escape_u (high_surrogate c) ++ escape_u (low_surrogate c).

Definition quote (s : str) : str := [34] ++ s ++ [34].

Definition dumps_str (s : str) : str :=
  quote (concat (escape_char <$> s)).

Definition dumps_int (z : Z) : str :=
  of_string (NilZero.string_of_int (Z.to_int z)).

Definition dumps_value (v : json_value) : str :=
  match v with
  | JStr s => dumps_str s
  | JInt z => dumps_int z
  end.

Definition dumps_item (kv : str * json_value) : str :=
  dumps_str kv.1 ++ [58; 32] ++ dumps_value kv.2.

Fixpoint join_items (items : list str) : str :=
  match items with
  | [] => []
  | [item] => item
  | item :: rest => item ++ [44; 32] ++ join_items rest
  end.

Definition json_dumps (d : json_dict) : str :=
  [123] ++ join_items (dumps_item <$> d) ++ [125].

(** *** Reading the output back

    [read_lines] cuts a text at its newlines, as iterating over the file
    does: the complete lines, without their newline, and what follows the
    last newline. *)
Fixpoint read_lines_from (line : str) (text : str) : list str * str :=
  match text with
  | [] => ([], rev line)
  | c :: rest =>
      if c =? 10 then
        let '(ls, r) := read_lines_from [] rest in (rev line :: ls, r)
      else read_lines_from (c :: line) rest
  end.

Definition read_lines (text : str) : list str * str :=
  read_lines_from [] text.

(** A reader of JSON texts (RFC 8259) for flat objects whose values are
    strings or integers. A string is returned as its UTF-16 units: an
    escape [\uXXXX] stands for one unit. *)
Definition to_string (s : str) : string :=
  string_of_list_ascii (ascii_of_N <$> s).

Definition utf16_units (c : N) : str :=
  if c <? 65536 then [c] else [high_surrogate c; low_surrogate c].

Definition utf16 (s : str) : str := concat (utf16_units <$> s).

Definition is_ws (c : N) : bool :=
  (c =? 32) || (c =? 9) || (c =? 10) || (c =? 13).

Fixpoint skip_ws (text : str) : str :=
  match text with
  | [] => []
  | c :: rest => if is_ws c then skip_ws rest else text
  end.

Definition unhex (c : N) : option N :=
  if (48 <=? c) && (c <=? 57) then Some (c - 48)
  else if (97 <=? c) && (c <=? 102) then Some (c - 87)
  else if (65 <=? c) && (c <=? 70) then Some (c - 55)
  else None.

(** The character an escape stands for, from the character after the
    backslash. *)
Definition unescape (e : N) : option N :=
  if e =? 34 then Some 34
  else if e =? 92 then Some 92
  else if e =? 47 then Some 47
  else if e =? 98 then Some 8
  else if e =? 102 then Some 12
  else if e =? 110 then Some 10
  else if e =? 114 then Some 13
  else if e =? 116 then Some 9
  else None.

Definition cons_unit (u : N) (r : option (str * str)) : option (str * str) :=
  match r with
  | Some (s, rest) => Some (u :: s, rest)
  | None => None
  end.

Definition prepend_units (us : str) (r : option (str * str))
  : option (str * str) :=
  match r with
  | Some (s, rest) => Some (us ++ s, rest)
  | None => None
  end.

(** The string whose opening quote has been read: its units and the text
    after its closing quote. *)
Fixpoint read_string (text : str) : option (str * str) :=
  match text with
  | [] => None
  | c :: rest =>
      if c =? 34 then Some ([], rest)
      else if c =? 92 then
        match rest with
        | [] => None
        | e :: rest1 =>
            if e =? 117 then
              match rest1 with
              | h1 :: h2 :: h3 :: h4 :: rest2 =>
                  match unhex h1, unhex h2, unhex h3, unhex h4 with
                  | Some d1, Some d2, Some d3, Some d4 =>
                      cons_unit (4096 * d1 + 256 * d2 + 16 * d3 + d4)
                                (read_string rest2)
                  | _, _, _, _ => None
                  end
              | _ => None
              end
            else
              match unescape e with
              | Some u => cons_unit u (read_string rest1)
              | None => None
              end
        end
      else if c <? 32 then None
      else cons_unit c (read_string rest)
  end.

Definition is_int_char (c : N) : bool :=
  (c =? 45) || ((48 <=? c) && (c <=? 57)).

Fixpoint span_int (text : str) : str * str :=
  match text with
  | [] => ([], [])
  | c :: rest =>
      if is_int_char c then
        let '(tok, r) := span_int rest in (c :: tok, r)
      else ([], text)
  end.

(** A text that does not go on with a sign or a digit. *)
Definition ends_int (text : str) : Prop :=
  match text with
  | [] => True
  | c :: _ => is_int_char c = false
  end.

Definition read_int (text : str) : option (Z * str) :=
  let '(tok, rest) := span_int text in
  match NilZero.int_of_string (to_string tok) with
  | Some d => Some (Z.of_int d, rest)
  | None => None
  end.

Definition read_value (text : str) : option (json_value * str) :=
  match text with
  | [] => None
  | c :: rest =>
      if c =? 34 then
        match read_string rest with
        | Some (s, r) => Some (JStr s, r)
        | None => None
        end
      else
        match read_int text with
        | Some (z, r) => Some (JInt z, r)
        | None => None
        end
  end.

(** A text that goes on with a comma or a closing brace. *)
Definition ends_item (text : str) : Prop :=
  exists c rest, text = c :: rest /\ (c = 44 \/ c = 125).

(** One member [key : value] and the text after it, spaces skipped. *)
Definition read_item (text : str) : option ((str * json_value) * str) :=
  match skip_ws text with
  | [] => None
  | c :: t1 =>
      if c =? 34 then
        match read_string t1 with
        | None => None
        | Some (k, t2) =>
            match skip_ws t2 with
            | [] => None
            | c2 :: t3 =>
                if c2 =? 58 then
                  match read_value (skip_ws t3) with
                  | Some (v, t4) => Some ((k, v), skip_ws t4)
                  | None => None
                  end
                else None
            end
        end
      else None
  end.

Fixpoint read_items (fuel : nat) (text : str) : option (json_dict * str) :=
  match fuel with
  | O => None
  | S fuel =>
      match read_item text with
      | Some (kv, c :: rest) =>
          if c =? 44 then
            match read_items fuel rest with
            | Some (d, r) => Some (kv :: d, r)
            | None => None
            end
          else if c =? 125 then Some ([kv], rest)
          else None
      | _ => None
      end
  end.

Definition at_end (d : json_dict) (text : str) : option json_dict :=
  match skip_ws text with
  | [] => Some d
  | _ :: _ => None
  end.

Definition json_loads (text : str) : option json_dict :=
  match skip_ws text with
  | [] => None
  | c :: t1 =>
      if c =? 123 then
        match skip_ws t1 with
        | [] => None
        | c2 :: t2 =>
            if c2 =? 125 then at_end [] t2
            else
              match read_items (length t1) t1 with
              | Some (d, r) => at_end d r
              | None => None
              end
        end
      else None
  end.

End Py.

Import Py.

(** ** The script *)

(** lines 28-31 *)
Definition NEGATION_WORDS : gset str :=
  list_to_set (of_string <$>
    ["not"; "no"; "never"; "none"; "nobody"; "nothing"; "nowhere";
     "neither"; "nor"; "n't"; "cant"; "can't"; "dont"; "don't"]%string).

(** What the dataset yields: a record with the three fields the script
    reads. *)
Record Example := {
  premise : str;
  hypothesis : str;
  label : Z
}.

Global Instance Example_eq_dec : EqDecision Example.
Proof. solve_decision. Defined.

(** The insertion-ordered dictionary [by_label]. *)
Abbreviation label_dict := (list (Z * list Example)).

(** [lab in by_label] *)
Definition dict_in (lab : Z) (d : label_dict) : bool :=
  existsb (fun kv => (kv.1 =? lab)%Z) d.

(** [by_label[lab].append(ex)] *)
Definition dict_append (lab : Z) (ex : Example) (d : label_dict) : label_dict :=
  (fun kv => if (kv.1 =? lab)%Z then (kv.1, kv.2 ++ [ex]) else kv) <$> d.

Section Script.

(** [str.lower] of the interpreter. *)
Variable lower : str -> str.

(** lines 34-38 *)
Definition simple_tokenize (text : str) : list str :=
  let text := lower text in
  let text := re_sub_not_az09 text in
  filter (fun t => t <> []) (split text).

(** lines 41-43, for any vocabulary bound to the global name *)
Definition has_negation_in (words : gset str) (text : str) : bool :=
  let toks := simple_tokenize text in
  existsb (fun t => bool_decide (t ∈ words)) toks.

Definition has_negation (text : str) : bool :=
  has_negation_in NEGATION_WORDS text.

(** lines 46-53 *)
Definition lexical_overlap (prem hyp : str) : option float :=
  let prem_tokens : gset str := list_to_set (simple_tokenize prem) in
  let hyp_tokens : gset str := list_to_set (simple_tokenize hyp) in
  if bool_decide (prem_tokens = ∅) || bool_decide (hyp_tokens = ∅)
  then Some float_0_0
  else
    let inter := size (prem_tokens ∩ hyp_tokens) in
    let union := size (prem_tokens ∪ hyp_tokens) in
    int_truediv (N.of_nat inter) (N.of_nat union).

(** lines 56-71 *)
Definition is_hard_example (ex : Example) : option bool :=
  let prem := premise ex in
  let hyp := hypothesis ex in
  if has_negation hyp then Some false
  else
    let hyp_len := length (simple_tokenize hyp) in
    if (hyp_len <=? 10)%nat then Some false
    else
      match lexical_overlap prem hyp with
      | None => None
      | Some overlap =>
          if float_ge overlap float_0_2 then Some false else Some true
      end.

(** lines 94-100: the loop that fills [by_label] *)
Definition by_label_init : label_dict := [(0, []); (1, []); (2, [])]%Z.

Fixpoint collect (by_label : label_dict) (train : list Example)
  : option label_dict :=
  match train with
  | [] => Some by_label
  | ex :: rest =>
      match is_hard_example ex with
      | None => None
      | Some true =>
          let lab := label ex in
          if dict_in lab by_label
          then collect (dict_append lab ex by_label) rest
          else collect by_label rest
      | Some false => collect by_label rest
      end
  end.

(** lines 117-125: the text written to the output file *)
Definition out_record (ex : Example) : json_dict :=
  [(of_string "premise", JStr (premise ex));
   (of_string "hypothesis", JStr (hypothesis ex));
   (of_string "label", JInt (label ex))].

Definition write_jsonl (selected : list Example) : str :=
  concat ((fun ex => json_dumps (out_record ex) ++ [10]) <$> selected).

(** The generator of module [random]: its state, [random.seed] and
    [random.shuffle]. *)
Variable rng : Type.
Variable random_seed : Z -> rng.
Variable random_shuffle : forall A : Type, list A -> rng -> list A * rng.

(** A computation that reads and updates the generator and may raise. *)
Definition M (A : Type) : Type := rng -> option (A * rng).

Definition ret {A} (a : A) : M A := fun g => Some (a, g).

Definition bind {A B} (m : M A) (k : A -> M B) : M B :=
  fun g => match m g with
           | None => None
           | Some (a, g') => k a g'
           end.

Definition lift {A} (o : option A) : M A :=
  fun g => match o with
           | None => None
           | Some a => Some (a, g)
           end.

Definition seed (a : Z) : M unit := fun _ => Some (tt, random_seed a).

Definition shuffle {A} (l : list A) : M (list A) :=
  fun g => Some (random_shuffle A l g).

Local Notation "x <- m ;; k" := (bind m (fun x => k))
  (at level 100, m at next level, right associativity).

(** lines 106-111: shuffle each group, keep a prefix, extend [selected] *)
Fixpoint sample_groups (max_per_label : Z) (items : label_dict)
    (selected : list Example) : M (list Example) :=
  match items with
  | [] => ret selected
  | (lab, exs) :: rest =>
      exs <- shuffle exs ;;
      let keep := slice_to exs max_per_label in
      sample_groups max_per_label rest (selected ++ keep)
  end.

(** lines 106-113: the stratified sampler *)
Definition sampler (max_per_label : Z) (by_label : label_dict)
  : M (list Example) :=
  selected <- sample_groups max_per_label by_label [] ;;
  shuffle selected.

(** lines 83-113: from the seed to the shuffled selection *)
Definition select (dataset : list Example) (max_per_label seed_arg : Z)
  : M (list Example) :=
  _ <- seed seed_arg ;;
  let train := filter (fun ex => label ex <> (-1)%Z) dataset in
  by_label <- lift (collect by_label_init train) ;;
  sampler max_per_label by_label.

(** lines 74-127: the content of the output file *)
Definition main (dataset : list Example) (max_per_label seed_arg : Z)
  : M str :=
  selected <- select dataset max_per_label seed_arg ;;
  ret (write_jsonl selected).

End Script.

Arguments ret {rng A} a.
Arguments bind {rng A B} m k.
Arguments lift {rng A} o.
Arguments shuffle {rng} random_shuffle {A} l.
Arguments seed {rng} random_seed a.

(** The number of examples of one label in a selection. *)
Definition count_label (lab : Z) (selected : list Example) : nat :=
  length (filter (fun ex => label ex = lab) selected).

(** Every group holds examples of its own label only, all with property
    [P]. *)
Definition groups_of (P : Example -> Prop) (d : label_dict) : Prop :=
  Forall (fun kv => Forall (fun ex => label ex = kv.1 /\ P ex) kv.2) d.

(** What the reader returns for a value that [json_dumps] wrote. *)
Definition read_back_value (v : json_value) : json_value :=
  match v with
  | JStr s => JStr (utf16 s)
  | JInt z => JInt z
  end.

Definition read_back (kv : str * json_value) : str * json_value :=
  (utf16 kv.1, read_back_value kv.2).

(** A Python string holds code points below 0x110000. *)
Definition python_str (s : str) : Prop := Forall (fun c => c < 1114112) s.

Definition python_value (v : json_value) : Prop :=
  match v with
  | JStr s => python_str s
  | JInt _ => True
  end.

Definition python_item (kv : str * json_value) : Prop :=
  python_str kv.1 /\ python_value kv.2.

(** The characters from the space to the tilde. *)
Definition printable (c : N) : Prop := 32 <= c <= 126.

(** A generator that leaves every list as it is; it stands for [random] where
    a concrete run is evaluated. *)
Definition no_shuffle (A : Type) (l : list A) (g : unit) : list A * unit :=
  (l, g).

Definition seed_unit (a : Z) : unit := tt.

(** The three examples of the end-to-end scenario. *)
Definition example_a : Example :=
  {| premise := of_string "a man runs";
     hypothesis := of_string "a man is not running very quickly today outside";
     label := 1 |}.

Definition example_b : Example :=
  {| premise := of_string "a dog sleeps";
     hypothesis := of_string
       "a completely unrelated group of people are celebrating a festival downtown";
     label := 0 |}.

Definition example_c : Example :=
  {| premise := of_string "a cat eats food";
     hypothesis := of_string "a cat eats food";
     label := 2 |}.

(** The vocabulary without its three entries that hold an apostrophe. *)
Definition APOSTROPHE_WORDS : gset str :=
  list_to_set (of_string <$> ["n't"; "can't"; "don't"]%string).

Definition NEGATION_WORDS_without_apostrophes : gset str :=
  NEGATION_WORDS ∖ APOSTROPHE_WORDS.

(** An unlabeled example that passes the three heuristics. *)
Definition example_unlabeled : Example :=
  {| premise := premise example_b;
     hypothesis := hypothesis example_b;
     label := -1 |}.

(** The premise of the scenario's example (c) with its words in another
    order: the same set of tokens. *)
Definition example_reordered : Example :=
  {| premise := of_string "a cat eats food";
     hypothesis := of_string "Food, a cat eats!";
     label := 2 |}.

(** Example (b) of the scenario in upper case. *)
Definition example_shouted : Example :=
  {| premise := of_string "A DOG SLEEPS";
     hypothesis := of_string
       "A COMPLETELY UNRELATED GROUP OF PEOPLE ARE CELEBRATING A FESTIVAL DOWNTOWN";
     label := 0 |}.

(** ** Notions used to state further properties *)

(** The maximal runs of characters of [a-z0-9] of a text, in order; [word]
    holds the run being read, last character first. *)
Fixpoint az09_runs_from (word : str) (text : str) : list str :=
  match text with
  | [] => flush word []
  | c :: rest =>
      if az09 c then az09_runs_from (c :: word) rest
      else flush word (az09_runs_from [] rest)
  end.

Definition az09_runs (text : str) : list str := az09_runs_from [] text.

(** [" ".join(words)] *)
Fixpoint join_spaces (words : list str) : str :=
  match words with
  | [] => []
  | [w] => w
  | w :: rest => w ++ 32 :: join_spaces rest
  end.

(** A token: a non-empty string over [a-z0-9]. *)
Definition token (t : str) : Prop := t <> [] /\ Forall (fun c => az09 c = true) t.

(** Where the remainder of [N] by [D] lies in the interval of length [D]:
    at its start, below, at or above its middle. *)
Definition loc_of (N D : Z) : location :=
  if (N mod D =? 0)%Z then loc_Exact
  else loc_Inexact (2 * (N mod D) ?= D)%Z.

(** A rounding record that stands for the quotient [N / D]. *)
Definition represents (mrs : shr_record) (N D : Z) : Prop :=
  shr_m mrs = (N / D)%Z /\ loc_of_shr_record mrs = loc_of N D.

(** The length of the slice [l[:stop]] of a list of length [len]. *)
Definition slice_length (len : nat) (stop : Z) : nat :=
  if (0 <=? stop)%Z then Nat.min (Z.to_nat stop) len
  else Z.to_nat (Z.of_nat len + stop).

Section ScriptMore.

Variable lower : str -> str.

(** The hard examples of label [k]. *)
Definition hard_of_label (k : Z) (ex : Example) : Prop :=
  is_hard_example lower ex = Some true /\ label ex = k.

Global Instance hard_of_label_dec k ex : Decision (hard_of_label k ex).
Proof. unfold hard_of_label. apply _. Defined.

(** What the loop of lines 96-100 appends to the entry of key [kv.1]. *)
Definition extend_group (train : list Example) (kv : Z * list Example)
  : Z * list Example :=
  (kv.1, kv.2 ++ filter (hard_of_label kv.1) train).

(** The examples that can be written: hard, with a label among the keys of
    [by_label]. *)
Definition kept_example (ex : Example) : Prop :=
  is_hard_example lower ex = Some true /\ label ex ∈ [0; 1; 2]%Z.

Global Instance kept_example_dec ex : Decision (kept_example ex).
Proof. unfold kept_example. apply _. Defined.

(** What one pass of the loop of lines 107-111 keeps of a group: a prefix of
    some arrangement of it. *)
Definition kept_of (max_per_label : Z) (kv : Z * list Example)
    (kept : list Example) : Prop :=
  exists exs, exs ≡ₚ kv.2 /\ kept = slice_to exs max_per_label.

End ScriptMore.

(** A text of the Basic Multilingual Plane, without surrogates to pair. *)
Definition bmp_str (s : str) : Prop := Forall (fun c => c < 65536) s.

(** ** Properties *)

(** *** Division of integers *)

Section Division.

Local Open Scope Z_scope.

Lemma digits2_pos_bounds p :
2 ^ (Zpos (digits2_pos p) - 1) <= Zpos p < 2 ^ Zpos (digits2_pos p).
Proof.
induction p as [p IH|p IH|]; simpl digits2_pos.
- rewrite Pos2Z.inj_succ.
  replace (Z.succ (Zpos (digits2_pos p)) - 1) with (Z.succ (Zpos (digits2_pos p) - 1)) by lia.
  rewrite !Z.pow_succ_r by lia. lia.
- rewrite Pos2Z.inj_succ.
  replace (Z.succ (Zpos (digits2_pos p)) - 1) with (Z.succ (Zpos (digits2_pos p) - 1)) by lia.
  rewrite !Z.pow_succ_r by lia. lia.
- simpl. lia.
Qed.

(** A non-negative integer below a power of two has at most that many digits. *)
Lemma Zdigits2_le m k : 0 <= m -> 0 <= k -> m < 2 ^ k -> Zdigits2 m <= k.
Proof.
intros Hm Hk Hlt. destruct m as [|p|p]; simpl; [lia| |lia].
destruct (digits2_pos_bounds p) as [Hlo _].
destruct (Z_le_gt_dec (Zpos (digits2_pos p)) k) as [|Hgt]; [assumption|].
assert (2 ^ k <= 2 ^ (Zpos (digits2_pos p) - 1)) by (apply Z.pow_le_mono_r; lia).
lia.
Qed.

Lemma shr_1_m mrs : 0 <= shr_m mrs -> shr_m (shr_1 mrs) = shr_m mrs / 2.
Proof.
destruct mrs as [m r s]. cbn [shr_m]. intros Hm.
destruct m as [|[p|p|]|p]; cbn [shr_1 shr_m]; try lia.
- reflexivity.
- apply Z.div_unique with (r := 1); lia.
- apply Z.div_unique with (r := 0); lia.
- reflexivity.
Qed.

Lemma iter_pos_shr_1_m n mrs :
0 <= shr_m mrs ->
shr_m (SpecFloat.iter_pos shr_1 n mrs) = shr_m mrs / 2 ^ Zpos n.
Proof.
revert mrs. induction n as [n IH|n IH|]; intros mrs Hm; cbn [SpecFloat.iter_pos].
- assert (Hp : 0 < 2 ^ Zpos n) by (apply Z.pow_pos_nonneg; lia).
  assert (H1 : 0 <= shr_m (shr_1 mrs)) by (rewrite shr_1_m by lia; apply Z.div_pos; lia).
  assert (H2 : 0 <= shr_m (SpecFloat.iter_pos shr_1 n (shr_1 mrs))) by (rewrite IH by lia; apply Z.div_pos; lia).
  rewrite IH by lia. rewrite IH by lia. rewrite shr_1_m by lia.
  rewrite !Z.div_div by lia. f_equal.
  replace (Zpos n~1) with (1 + Zpos n + Zpos n) by lia.
  rewrite !Z.pow_add_r by lia. lia.
- assert (Hp : 0 < 2 ^ Zpos n) by (apply Z.pow_pos_nonneg; lia).
  assert (H2 : 0 <= shr_m (SpecFloat.iter_pos shr_1 n mrs)) by (rewrite IH by lia; apply Z.div_pos; lia).
  rewrite IH by lia. rewrite IH by lia.
  rewrite !Z.div_div by lia. f_equal.
  replace (Zpos n~0) with (Zpos n + Zpos n) by lia.
  rewrite !Z.pow_add_r by lia. lia.
- rewrite shr_1_m by lia. reflexivity.
Qed.

Lemma shr_record_of_loc_m m l : shr_m (shr_record_of_loc m l) = m.
Proof. destruct l as [|[]]; reflexivity. Qed.

Lemma round_nearest_even_bounds m l :
m <= round_nearest_even m l <= m + 1.
Proof.
destruct l as [|[]]; cbn [round_nearest_even]; try lia.
destruct (Z.even m); lia.
Qed.

Lemma fexp_eq e : fexp prec emax e = Z.max (e - 53) (-1074).
Proof. reflexivity. Qed.

(** One normalisation step: the mantissa is divided by a power of two so
  that the exponent becomes [max e (fexp (digits m + e))]. *)
Lemma shr_fexp_bounds m e l k :
0 <= m -> 0 <= k -> m < 2 ^ k -> k + e <= 1 -> e <= -52 ->
let '(mrs, e') := shr_fexp prec emax m e l in
e' <= -52 /\ 0 <= shr_m mrs /\
(m < 2 ^ (- e) -> shr_m mrs < 2 ^ (- e')) /\
(m <= 2 ^ (- e) -> shr_m mrs <= 2 ^ (- e')).
Proof.
intros Hm Hk Hlt Hke He. unfold shr_fexp, shr.
assert (Hd : Zdigits2 m <= k) by (apply Zdigits2_le; assumption).
rewrite fexp_eq.
destruct (Z.max (Zdigits2 m + e - 53) (-1074) - e) as [|p|p] eqn:Hn;
  rewrite ?shr_record_of_loc_m.
- repeat split; auto.
- rewrite iter_pos_shr_1_m by (rewrite shr_record_of_loc_m; lia).
  rewrite shr_record_of_loc_m.
  assert (Hp : 0 < 2 ^ Zpos p) by (apply Z.pow_pos_nonneg; lia).
  assert (He' : e + Zpos p <= -52) by lia.
  assert (Hpow : 2 ^ (- e) = 2 ^ (- (e + Zpos p)) * 2 ^ Zpos p).
  { rewrite <- Z.pow_add_r by lia. f_equal. lia. }
  repeat split.
  + lia.
  + apply Z.div_pos; lia.
  + intros H. apply Z.div_lt_upper_bound; [lia|]. rewrite Z.mul_comm, <- Hpow. exact H.
  + intros H. apply Z.div_le_upper_bound; [lia|]. rewrite Z.mul_comm, <- Hpow. exact H.
- repeat split; auto.
Qed.

Lemma binary_round_aux_le_1 q e l :
0 <= q < 2 ^ (- e) -> e <= -53 ->
binary_round_aux prec emax false q e l = S754_zero false \/
exists m3 e3, binary_round_aux prec emax false q e l = S754_finite false m3 e3 /\
              e3 <= -52 /\ Zpos m3 <= 2 ^ (- e3).
Proof.
intros [Hq0 Hq] He. unfold binary_round_aux.
pose proof (shr_fexp_bounds q e l (- e) Hq0 ltac:(lia) Hq ltac:(lia) ltac:(lia)) as H1.
destruct (shr_fexp prec emax q e l) as [mrs1 e1].
destruct H1 as (He1 & Hm1 & Hlt1 & _). specialize (Hlt1 Hq).
pose proof (round_nearest_even_bounds (shr_m mrs1) (loc_of_shr_record mrs1)) as Hr.
set (m2 := round_nearest_even (shr_m mrs1) (loc_of_shr_record mrs1)) in *.
assert (Hm2 : m2 < 2 ^ (- e1 + 1)).
{ rewrite Z.pow_add_r by lia. change (2 ^ 1) with 2. lia. }
pose proof (shr_fexp_bounds m2 e1 loc_Exact (- e1 + 1) ltac:(lia) ltac:(lia) Hm2 ltac:(lia) He1) as H2.
destruct (shr_fexp prec emax m2 e1 loc_Exact) as [mrs2 e2].
destruct H2 as (He2 & Hm3 & _ & Hle2). specialize (Hle2 ltac:(lia)).
destruct (shr_m mrs2) as [|m3|m3] eqn:E; [left; reflexivity| |lia].
right. exists m3, e2.
replace (e2 <=? emax - prec) with true; [auto|].
symmetry. apply Z.leb_le. unfold emax, prec. lia.
Qed.

Lemma div_core_lt a b :
(a < b)%positive ->
let '(q, e, l) := SFdiv_core_binary prec emax (Zpos a) 0 (Zpos b) 0 in
0 <= q < 2 ^ (- e) /\ e <= -53.
Proof.
intros Hab. unfold SFdiv_core_binary.
assert (Hd : Zdigits2 (Zpos a) <= Zdigits2 (Zpos b)).
{ cbn [Zdigits2]. apply Zdigits2_le with (m := Zpos a); [lia|lia|].
  destruct (digits2_pos_bounds b). lia. }
rewrite fexp_eq.
set (e := Z.min (Z.max (Zdigits2 (Zpos a) + 0 - (Zdigits2 (Zpos b) + 0) - 53) (-1074)) (0 - 0)).
assert (He : e <= -53) by lia.
destruct (0 - 0 - e) as [|s|s] eqn:Hs; [lia| |lia].
rewrite Z.shiftl_mul_pow2 by lia.
pose proof (Z_div_mod (Zpos a * 2 ^ Zpos s) (Zpos b) ltac:(lia)) as Hdm.
destruct (Z.div_eucl (Zpos a * 2 ^ Zpos s) (Zpos b)) as [q r].
destruct Hdm as [Heq Hr].
assert (Hp : 0 < 2 ^ Zpos s) by (apply Z.pow_pos_nonneg; lia).
replace (- e) with (Zpos s) by lia.
split; [|exact He]. split; nia.
Qed.

Lemma div_core_eq a :
SFdiv_core_binary prec emax (Zpos a) 0 (Zpos a) 0 = (2 ^ 53, -53, loc_Exact).
Proof.
unfold SFdiv_core_binary.
replace (Zdigits2 (Zpos a) + 0 - (Zdigits2 (Zpos a) + 0)) with 0 by lia.
change (Z.min (fexp prec emax 0) (0 - 0)) with (-53).
change (0 - 0 - -53) with 53.
cbv iota beta. rewrite Z.shiftl_mul_pow2 by lia.
pose proof (Z_div_mod (Zpos a * 2 ^ 53) (Zpos a) ltac:(lia)) as Hdm.
destruct (Z.div_eucl (Zpos a * 2 ^ 53) (Zpos a)) as [q r].
destruct Hdm as [Heq Hr].
assert (q = 2 ^ 53) by nia. assert (r = 0) by nia. subst.
unfold new_location. destruct (Z.even (Zpos a)); reflexivity.
Qed.

Lemma Zpos_le_inv p q : Zpos p <= Zpos q -> (p <= q)%positive.
Proof. intros H. exact H. Qed.

(** Comparison of two positive finite floats: by exponent, then by
  mantissa. *)
Lemma float_le_finite m e m' e' :
e < e' \/ (e = e' /\ (m <= m')%positive) ->
float_le (S754_finite false m e) (S754_finite false m' e') = true.
Proof.
intros H. unfold float_le, SFleb, SFcompare.
destruct (Z.compare_spec e e') as [Heq|Hlt|Hgt]; [|reflexivity|lia].
destruct H as [H|[_ H]]; [lia|].
rewrite Pos.compare_cont_spec. cbn [Pos.switch_Eq].
destruct (Pos.compare_spec m m'); [reflexivity|reflexivity|lia].
Qed.

Local Open Scope N_scope.

(** The quotient of two positive integers [a <= b] is a double in [0, 1]:
  no exception, no NaN. *)
Lemma int_truediv_unit a b :
(a <= b)%positive ->
exists r, int_truediv (Npos a) (Npos b) = Some r /\
          float_le float_0_0 r = true /\ float_le r float_1_0 = true.
Proof.
intros Hab. unfold int_truediv.
destruct (Pos.eq_dec a b) as [->|Hne].
- rewrite div_core_eq. exists float_1_0. repeat split; reflexivity.
- pose proof (div_core_lt a b ltac:(lia)) as H.
  destruct (SFdiv_core_binary prec emax (Zpos a) 0 (Zpos b) 0) as [[q e] l].
  destruct H as [Hq He].
  destruct (binary_round_aux_le_1 q e l Hq He) as [-> | (m3 & e3 & -> & He3 & Hm3)].
  + eexists; split; [reflexivity|]. split; reflexivity.
  + eexists; split; [reflexivity|]. split; [reflexivity|].
    apply float_le_finite.
    destruct (Z.eq_dec e3 (-52)%Z) as [->|]; [right|left; lia].
    split; [reflexivity|]. apply Zpos_le_inv. exact Hm3.
Qed.

End Division.

Section Tokenizer.

Context (lower : str -> str).
Hypothesis lower_ascii :
  forall text, Forall is_ascii text -> lower text = ascii_lower text.

Lemma az09_range c : az09 c = true -> 48 <= c <= 122.
Proof.
  unfold az09. intros H.
  apply orb_true_iff in H as [H|H]; apply andb_true_iff in H as [H1 H2];
    apply N.leb_le in H1, H2; lia.
Qed.

Lemma az09_not_space c : az09 c = true -> isspace c = false.
Proof.
  intros H%az09_range. unfold isspace.
  repeat match goal with
         | |- context [?a <=? ?b] =>
             first [ rewrite (proj2 (N.leb_gt a b)) by lia
                   | rewrite (proj2 (N.leb_le a b)) by lia ]
         | |- context [?a =? ?b] => rewrite (proj2 (N.eqb_neq a b)) by lia
         end.
  reflexivity.
Qed.

Lemma re_sub_runs_chars b text :
  Forall (fun c => az09 c = true \/ c = 32) (re_sub_runs b text).
Proof.
  revert b. induction text as [|c rest IH]; intros b; simpl; [constructor|].
  destruct (az09 c) eqn:Hc; [constructor; auto|].
  destruct b; [apply IH|]. constructor; auto.
Qed.

Lemma isspace_32 : isspace 32 = true.
Proof. reflexivity. Qed.

(** Every word of [split] is non-empty and made of non-space characters
    of the text. *)
Lemma split_from_words (P : N -> Prop) word text :
  Forall P word ->
  Forall (fun c => isspace c = false -> P c) text ->
  Forall (fun w => w <> [] /\ Forall P w) (split_from word text).
Proof.
  revert word. induction text as [|c rest IH]; intros word Hw Ht; simpl.
  - destruct word as [|d word]; simpl; [constructor|].
    constructor; [|constructor]. split.
    + intros E. apply (f_equal length) in E.
      rewrite length_app in E. simpl in E. lia.
    + apply Forall_rev in Hw. exact Hw.
  - inversion Ht as [|? ? Hc Hrest]; subst.
    destruct (isspace c) eqn:Hs.
    + assert (Hr := IH [] (Forall_nil_2 _) Hrest).
      destruct word as [|d word]; simpl; [exact Hr|].
      constructor; [|exact Hr]. split.
      * intros E. apply (f_equal length) in E.
        rewrite length_app in E. simpl in E. lia.
      * apply Forall_rev in Hw. exact Hw.
    + apply IH; [|exact Hrest]. constructor; auto.
Qed.

Lemma split_words (P : N -> Prop) text :
  Forall (fun c => isspace c = false -> P c) text ->
  Forall (fun w => w <> [] /\ Forall P w) (split text).
Proof. apply split_from_words. constructor. Qed.

Lemma simple_tokenize_tokens text :
  Forall (fun t => t <> [] /\ Forall (fun c => az09 c = true) t)
         (simple_tokenize lower text).
Proof.
  unfold simple_tokenize. apply Forall_forall.
  intros t [_ Hin]%list_elem_of_filter. revert t Hin. apply Forall_forall.
  apply split_words with (P := fun c => az09 c = true).
  eapply Forall_impl; [apply re_sub_runs_chars|].
  intros c [Hc| ->] Hs; [exact Hc|]. discriminate.
Qed.

End Tokenizer.

(** *** Negation detector, overlap scorer and heuristic evaluator *)

Section Heuristics.

Context (lower : str -> str).

Lemma SFcompare_antisym x y :
  SFcompare y x = CompOpp <$> SFcompare x y.
Proof.
  destruct x as [sx|sx| |sx mx ex], y as [sy|sy| |sy my ey];
    try reflexivity; try (destruct sx, sy; reflexivity);
    try (destruct sx; reflexivity); try (destruct sy; reflexivity).
  cbn [SFcompare]. rewrite !Pos.compare_cont_spec. cbn [Pos.switch_Eq].
  rewrite (Z.compare_antisym ey ex), (Pos.compare_antisym my mx).
  destruct sx, sy; cbn [fmap option_fmap option_map]; try reflexivity;
    destruct (ey ?= ex)%Z, (my ?= mx)%positive; reflexivity.
Qed.

(** On numbers, [x >= y] is the negation of [x < y]. *)
Lemma float_ge_not_lt x y :
  float_le float_0_0 x = true -> y <> S754_nan ->
  float_ge x y = negb (float_lt x y).
Proof.
  unfold float_le, float_ge, float_lt, SFleb, SFltb. intros Hx Hy.
  rewrite (SFcompare_antisym x y).
  assert (Hc : exists c, SFcompare x y = Some c).
  { destruct x as [sx|sx| |sx mx ex]; [| |discriminate Hx|];
      (destruct y as [sy|sy| |sy my ey]; [| |congruence|]);
      eexists; reflexivity. }
  destruct Hc as [c ->]. destruct c; reflexivity.
Qed.

Lemma lexical_overlap_unit prem hyp :
  exists r, lexical_overlap lower prem hyp = Some r /\
            float_le float_0_0 r = true /\ float_le r float_1_0 = true.
Proof.
  unfold lexical_overlap.
  set (A := list_to_set (simple_tokenize lower prem) : gset str).
  set (B := list_to_set (simple_tokenize lower hyp) : gset str).
  destruct (bool_decide (A = ∅) || bool_decide (B = ∅)) eqn:E.
  - exists float_0_0. repeat split; reflexivity.
  - apply orb_false_iff in E as [EA EB].
    apply bool_decide_eq_false in EA, EB.
    assert (Hle : (size (A ∩ B) <= size (A ∪ B))%nat).
    { apply subseteq_size. intros x Hx.
      apply elem_of_intersection in Hx as [Hx _].
      apply elem_of_union. left. exact Hx. }
    assert (Hpos : (0 < size (A ∪ B))%nat).
    { assert (size A <> 0%nat) by (intros H; apply size_empty_inv in H; apply EA; set_solver).
      assert (size A <= size (A ∪ B))%nat by (apply subseteq_size; set_solver).
      lia. }
    destruct (N.of_nat (size (A ∪ B))) as [|b] eqn:Eb; [lia|].
    destruct (N.of_nat (size (A ∩ B))) as [|a] eqn:Ea.
    + exists float_0_0. repeat split; reflexivity.
    + apply int_truediv_unit. lia.
Qed.


End Heuristics.

Section Claims.

Context (lower : str -> str).

(** C5: every token is non-empty and made of characters of [a-z0-9] only:
    no space, no upper-case letter, nothing else; the empty text has no
    token (given that lower-casing the empty text gives the empty text). *)
Theorem simple_tokenize_alphabet text :
  lower [] = [] ->
  Forall (fun t => t <> [] /\
                   Forall (fun c => az09 c = true /\ isspace c = false /\
                                    ~ (65 <= c <= 90)) t)
         (simple_tokenize lower text) /\
  simple_tokenize lower [] = [].
Proof.
  intros Hnil. split.
  - eapply Forall_impl; [apply simple_tokenize_tokens|].
    intros t [Hne Hall]. split; [exact Hne|].
    eapply Forall_impl; [exact Hall|].
    intros c Hc. split; [exact Hc|]. split; [apply az09_not_space, Hc|].
    unfold az09 in Hc. apply orb_true_iff in Hc as [Hc|Hc];
      apply andb_true_iff in Hc as [H1 H2]; apply N.leb_le in H1, H2; lia.
  - unfold simple_tokenize. rewrite Hnil. reflexivity.
Qed.

Lemma apostrophe_word_has_apostrophe t : t ∈ APOSTROPHE_WORDS -> 39 ∈ t.
Proof.
  unfold APOSTROPHE_WORDS. rewrite elem_of_list_to_set.
  intros H. cbn in H.
  repeat (apply elem_of_cons in H as [->|H]; [set_solver|]).
  set_solver.
Qed.

Lemma token_not_apostrophe_word text t :
  t ∈ simple_tokenize lower text -> t ∉ APOSTROPHE_WORDS.
Proof.
  intros Hin Hw. apply apostrophe_word_has_apostrophe in Hw.
  pose proof (simple_tokenize_tokens lower text) as H.
  rewrite Forall_forall in H. destruct (H t Hin) as [_ Hall].
  rewrite Forall_forall in Hall. specialize (Hall 39 Hw). discriminate.
Qed.

(** C3: no token equals ["n't"], ["can't"] or ["don't"], so the detector
    answers the same with and without these three entries in the
    vocabulary. *)
Theorem apostrophe_words_unreachable text :
  (forall t, t ∈ simple_tokenize lower text ->
             t <> of_string "n't" /\ t <> of_string "can't" /\
             t <> of_string "don't") /\
  has_negation lower text =
    has_negation_in lower NEGATION_WORDS_without_apostrophes text.
Proof.
  split.
  - intros t Hin. pose proof (token_not_apostrophe_word text t Hin) as Hn.
    unfold APOSTROPHE_WORDS in Hn. rewrite elem_of_list_to_set in Hn.
    repeat split; intros ->; apply Hn; cbn; set_solver.
  - unfold has_negation, has_negation_in, NEGATION_WORDS_without_apostrophes.
    pose proof (token_not_apostrophe_word text) as Hn.
    generalize NEGATION_WORDS. intros words.
    induction (simple_tokenize lower text) as [|t toks IH]; [reflexivity|].
    cbn [existsb]. rewrite IH by (intros t' Ht'; apply Hn; right; exact Ht').
    f_equal. apply bool_decide_ext. rewrite elem_of_difference.
    specialize (Hn t ltac:(left)). tauto.
Qed.

(** C10: two examples with the same premise and the same hypothesis get
    the same decision, whatever their labels. *)
Theorem is_hard_example_ignores_label ex1 ex2 :
  premise ex1 = premise ex2 -> hypothesis ex1 = hypothesis ex2 ->
  is_hard_example lower ex1 = is_hard_example lower ex2.
Proof. intros Hp Hh. unfold is_hard_example. rewrite Hp, Hh. reflexivity. Qed.

Lemma list_to_set_nil_iff (l : list str) :
  (list_to_set l : gset str) = ∅ <-> l = [].
Proof.
  split; [|intros ->; reflexivity].
  destruct l as [|x l]; [reflexivity|]. cbn. set_solver.
Qed.

(** C4: with [A] and [B] the sets of tokens of the two texts, the scorer
    returns 0.0 when one of them is empty and the quotient
    [|A ∩ B| / |A ∪ B|] of Python's integer division otherwise, whose
    divisor is then positive; the result is a double between 0.0 and 1.0,
    never an exception, and the two arguments can be swapped. *)
Theorem lexical_overlap_jaccard prem hyp :
  let A : gset str := list_to_set (simple_tokenize lower prem) in
  let B : gset str := list_to_set (simple_tokenize lower hyp) in
  (forall t, t ∈ A <-> t ∈ simple_tokenize lower prem) /\
  (forall t, t ∈ B <-> t ∈ simple_tokenize lower hyp) /\
  (A = ∅ \/ B = ∅ -> lexical_overlap lower prem hyp = Some float_0_0) /\
  (A <> ∅ -> B <> ∅ ->
     (0 < size (A ∪ B))%nat /\
     lexical_overlap lower prem hyp =
       int_truediv (N.of_nat (size (A ∩ B))) (N.of_nat (size (A ∪ B)))) /\
  (exists r, lexical_overlap lower prem hyp = Some r /\
             float_le float_0_0 r = true /\ float_le r float_1_0 = true) /\
  lexical_overlap lower prem hyp = lexical_overlap lower hyp prem.
Proof.
  intros A B.
  split; [intros t; apply elem_of_list_to_set|].
  split; [intros t; apply elem_of_list_to_set|].
  split; [|split; [|split]].
  - intros H. unfold lexical_overlap. fold A B.
    destruct H as [H|H]; rewrite (bool_decide_eq_true_2 _ H);
      [reflexivity|apply orb_true_r || (rewrite orb_true_r; reflexivity)].
  - intros HA HB. split.
    + assert (size A <> 0%nat) by (intros H; apply size_empty_inv in H; apply HA; set_solver).
      assert (size A <= size (A ∪ B))%nat by (apply subseteq_size; set_solver).
      lia.
    + unfold lexical_overlap. fold A B.
      rewrite (bool_decide_eq_false_2 _ HA), (bool_decide_eq_false_2 _ HB).
      reflexivity.
  - apply lexical_overlap_unit.
  - unfold lexical_overlap. fold A B.
    rewrite (orb_comm (bool_decide (A = ∅))).
    rewrite (comm_L (∩) A B), (comm_L (∪) A B). reflexivity.
Qed.

End Claims.

(** *** The writer and the reader of its output *)

Section Writer.


Lemma land_15_lt x : N.land x 15 < 16.
Proof.
  change 15 with (N.ones 4). rewrite N.land_ones.
  apply N.mod_lt. discriminate.
Qed.

Lemma hex_digit_printable d : d < 16 -> printable (hex_digit d).
Proof.
  intros Hd. unfold printable, hex_digit.
  destruct (N.ltb_spec d 10); lia.
Qed.

Lemma escape_u_printable c : Forall printable (escape_u c).
Proof.
  unfold escape_u.
  repeat (constructor; [first [apply hex_digit_printable, land_15_lt
                              | unfold printable; lia]|]).
  constructor.
Qed.

Lemma escape_char_printable c : Forall printable (escape_char c).
Proof.
  unfold escape_char.
  repeat match goal with
         | |- context [if ?a =? ?b then _ else _] =>
             destruct (N.eqb_spec a b);
             [repeat constructor; unfold printable; lia|]
         end.
  destruct ((32 <=? c) && (c <=? 126)) eqn:E.
  - apply andb_true_iff in E as [H1 H2]. apply N.leb_le in H1, H2.
    repeat constructor; assumption.
  - destruct (c <? 65536).
    + apply escape_u_printable.
    + apply Forall_app. split; apply escape_u_printable.
Qed.

Lemma quote_printable s : Forall printable s -> Forall printable (quote s).
Proof.
  intros H. unfold quote. constructor; [unfold printable; lia|].
  apply Forall_app. split; [exact H|]. repeat constructor; unfold printable; lia.
Qed.

Lemma dumps_str_printable s : Forall printable (dumps_str s).
Proof.
  unfold dumps_str. apply quote_printable, Forall_concat, Forall_fmap.
  apply Forall_forall. intros c _. apply escape_char_printable.
Qed.

Lemma is_int_char_printable c : is_int_char c = true -> printable c.
Proof.
  unfold is_int_char, printable. intros H.
  apply orb_true_iff in H as [H|H].
  - apply N.eqb_eq in H. lia.
  - apply andb_true_iff in H as [H1 H2]. apply N.leb_le in H1, H2. lia.
Qed.

Lemma uint_chars d :
  Forall (fun c => is_int_char c = true)
         (of_string (NilEmpty.string_of_uint d)).
Proof.
  induction d; cbn [NilEmpty.string_of_uint]; try constructor;
    try exact IHd; reflexivity.
Qed.

Lemma uint_chars_nilzero d :
  Forall (fun c => is_int_char c = true)
         (of_string (NilZero.string_of_uint d)).
Proof.
  destruct d; try apply (uint_chars (_ _)).
  repeat constructor.
Qed.

Lemma dumps_int_chars z : Forall (fun c => is_int_char c = true) (dumps_int z).
Proof.
  unfold dumps_int. destruct (Z.to_int z) as [d|d];
    cbn [NilZero.string_of_int].
  - apply uint_chars_nilzero.
  - constructor; [reflexivity|apply uint_chars_nilzero].
Qed.

Lemma dumps_value_printable v : Forall printable (dumps_value v).
Proof.
  destruct v as [s|z]; cbn [dumps_value]; [apply dumps_str_printable|].
  eapply Forall_impl; [apply dumps_int_chars|]. apply is_int_char_printable.
Qed.

Lemma dumps_item_printable kv : Forall printable (dumps_item kv).
Proof.
  unfold dumps_item. apply Forall_app. split; [apply dumps_str_printable|].
  apply Forall_app. split; [repeat constructor; unfold printable; lia|].
  apply dumps_value_printable.
Qed.

Lemma join_items_printable items :
  Forall (Forall printable) items -> Forall printable (join_items items).
Proof.
  induction 1 as [|item items Hi _ IH]; [constructor|].
  cbn [join_items]. destruct items as [|item' items]; [exact Hi|].
  apply Forall_app. split; [exact Hi|].
  apply Forall_app. split; [repeat constructor; unfold printable; lia|exact IH].
Qed.

Lemma json_dumps_printable d : Forall printable (json_dumps d).
Proof.
  unfold json_dumps. constructor; [unfold printable; lia|].
  apply Forall_app. split; [|repeat constructor; unfold printable; lia].
  apply join_items_printable, Forall_fmap, Forall_forall.
  intros kv _. apply dumps_item_printable.
Qed.

Lemma read_lines_from_line line l rest :
  Forall (fun c => c <> 10) l ->
  read_lines_from line (l ++ 10 :: rest) =
    ((rev line ++ l) :: (read_lines_from [] rest).1,
     (read_lines_from [] rest).2).
Proof.
  intros Hl. revert line.
  induction Hl as [|c l Hc _ IH]; intros line; cbn [app read_lines_from].
  - rewrite app_nil_r. change (10 =? 10) with true. cbv iota.
    destruct (read_lines_from [] rest). reflexivity.
  - rewrite (proj2 (N.eqb_neq c 10) Hc). rewrite IH.
    cbn [rev]. rewrite <- app_assoc. reflexivity.
Qed.

Lemma read_lines_write_jsonl selected :
  read_lines (write_jsonl selected) =
    ((fun ex => json_dumps (out_record ex)) <$> selected, []).
Proof.
  unfold read_lines, write_jsonl.
  induction selected as [|ex selected IH]; [reflexivity|].
  cbn [fmap list_fmap concat]. rewrite <- app_assoc. cbn [app].
  rewrite read_lines_from_line.
  - cbn [fmap list_fmap] in IH. rewrite IH. reflexivity.
  - eapply Forall_impl; [apply json_dumps_printable|].
    unfold printable. intros c Hc. lia.
Qed.



Lemma unhex_hex_digit d : d < 16 -> unhex (hex_digit d) = Some d.
Proof.
  intros Hd. unfold hex_digit, unhex.
  destruct (N.ltb_spec d 10).
  - rewrite (proj2 (N.leb_le 48 (48 + d))) by lia.
    rewrite (proj2 (N.leb_le (48 + d) 57)) by lia. cbn [andb].
    f_equal. lia.
  - rewrite (proj2 (N.leb_le 48 (87 + d))) by lia.
    rewrite (proj2 (N.leb_gt (87 + d) 57)) by lia. cbn [andb].
    rewrite (proj2 (N.leb_le 97 (87 + d))) by lia.
    rewrite (proj2 (N.leb_le (87 + d) 102)) by lia. cbn [andb].
    f_equal. lia.
Qed.

(** The four hexadecimal digits of a 16-bit unit give the unit back. *)
Lemma hex_digits_value c :
  c < 65536 ->
  4096 * N.land (N.shiftr c 12) 15 + 256 * N.land (N.shiftr c 8) 15
  + 16 * N.land (N.shiftr c 4) 15 + N.land c 15 = c.
Proof.
  intros Hc. change 15 with (N.ones 4).
  rewrite !N.land_ones, !N.shiftr_div_pow2.
  change (2 ^ 12) with 4096. change (2 ^ 8) with 256.
  change (2 ^ 4) with 16.
  pose proof (N.div_mod c 16 ltac:(discriminate)).
  pose proof (N.mod_lt c 16 ltac:(discriminate)).
  pose proof (N.div_mod (c / 16) 16 ltac:(discriminate)).
  pose proof (N.mod_lt (c / 16) 16 ltac:(discriminate)).
  pose proof (N.div_mod (c / 16 / 16) 16 ltac:(discriminate)).
  pose proof (N.mod_lt (c / 16 / 16) 16 ltac:(discriminate)).
  assert (E8 : c / 256 = c / 16 / 16) by (rewrite N.Div0.div_div; reflexivity).
  assert (E12 : c / 4096 = c / 16 / 16 / 16)
    by (rewrite !N.Div0.div_div; reflexivity).
  assert (c / 16 / 16 / 16 < 16).
  { rewrite <- E12. apply N.Div0.div_lt_upper_bound. exact Hc. }
  rewrite E8, E12. rewrite (N.mod_small (c / 16 / 16 / 16) 16) by assumption.
  lia.
Qed.

Lemma read_string_plain c text :
  c <> 34 -> c <> 92 -> 32 <= c ->
  read_string (c :: text) = cons_unit c (read_string text).
Proof.
  intros H1 H2 H3. cbn [read_string].
  rewrite (proj2 (N.eqb_neq c 34) H1), (proj2 (N.eqb_neq c 92) H2).
  rewrite (proj2 (N.ltb_ge c 32) H3). reflexivity.
Qed.

Lemma read_string_escape e u text :
  unescape e = Some u -> e <> 117 ->
  read_string (92 :: e :: text) = cons_unit u (read_string text).
Proof.
  intros H1 H2. cbn [read_string].
  change (92 =? 34) with false. change (92 =? 92) with true. cbv iota.
  rewrite (proj2 (N.eqb_neq e 117) H2), H1. reflexivity.
Qed.

Lemma read_string_escape_u c text :
  c < 65536 ->
  read_string (escape_u c ++ text) = cons_unit c (read_string text).
Proof.
  intros Hc. unfold escape_u. cbn [app read_string].
  change (92 =? 34) with false. change (92 =? 92) with true.
  change (117 =? 117) with true. cbv iota.
  rewrite !unhex_hex_digit by apply land_15_lt.
  rewrite hex_digits_value by exact Hc. reflexivity.
Qed.

Lemma surrogates_16bit c :
  65536 <= c -> c < 1114112 ->
  high_surrogate c < 65536 /\ low_surrogate c < 65536.
Proof.
  intros H1 H2. unfold high_surrogate, low_surrogate.
  rewrite N.shiftr_div_pow2. change (2 ^ 10) with 1024.
  change 1023 with (N.ones 10). rewrite N.land_ones. change (2 ^ 10) with 1024.
  pose proof (N.mod_lt c 1024 ltac:(discriminate)).
  assert ((c - 65536) / 1024 < 1024)
    by (apply N.Div0.div_lt_upper_bound; lia).
  lia.
Qed.

(** Reading the escape of one code point of a Python string (below
    0x110000). *)
Lemma read_string_escape_char c text :
  c < 1114112 ->
  read_string (escape_char c ++ text) =
    prepend_units (utf16_units c) (read_string text).
Proof.
  intros Hc. unfold escape_char, utf16_units.
  assert (Hcons : forall u r, cons_unit u r = prepend_units [u] r)
    by (intros u [[? ?]|]; reflexivity).
  destruct (N.eqb_spec c 34) as [->|H34];
    [cbn [app]; rewrite (read_string_escape 34 34) by (reflexivity || discriminate);
     apply Hcons|].
  destruct (N.eqb_spec c 92) as [->|H92];
    [cbn [app]; rewrite (read_string_escape 92 92) by (reflexivity || discriminate);
     apply Hcons|].
  destruct (N.eqb_spec c 10) as [->|H10];
    [cbn [app]; rewrite (read_string_escape 110 10) by (reflexivity || discriminate);
     apply Hcons|].
  destruct (N.eqb_spec c 13) as [->|H13];
    [cbn [app]; rewrite (read_string_escape 114 13) by (reflexivity || discriminate);
     apply Hcons|].
  destruct (N.eqb_spec c 9) as [->|H9];
    [cbn [app]; rewrite (read_string_escape 116 9) by (reflexivity || discriminate);
     apply Hcons|].
  destruct (N.eqb_spec c 8) as [->|H8];
    [cbn [app]; rewrite (read_string_escape 98 8) by (reflexivity || discriminate);
     apply Hcons|].
  destruct (N.eqb_spec c 12) as [->|H12];
    [cbn [app]; rewrite (read_string_escape 102 12) by (reflexivity || discriminate);
     apply Hcons|].
  destruct ((32 <=? c) && (c <=? 126)) eqn:E.
  - apply andb_true_iff in E as [E1 E2]. apply N.leb_le in E1, E2.
    cbn [app]. rewrite read_string_plain by assumption.
    rewrite (proj2 (N.ltb_lt c 65536)) by lia. apply Hcons.
  - destruct (N.ltb_spec c 65536) as [Hlt|Hge].
    + rewrite read_string_escape_u by exact Hlt. apply Hcons.
    + destruct (surrogates_16bit c Hge Hc) as [Hh Hl].
      rewrite <- app_assoc.
      rewrite read_string_escape_u by exact Hh.
      rewrite read_string_escape_u by exact Hl.
      destruct (read_string text) as [[? ?]|]; reflexivity.
Qed.

(** Reading what [dumps_str] wrote between the quotes. *)
Lemma read_string_escaped s text :
  python_str s ->
  read_string (concat (escape_char <$> s) ++ 34 :: text) = Some (utf16 s, text).
Proof.
  induction 1 as [|c s Hc _ IH]; [reflexivity|].
  unfold utf16 in *. cbn [fmap list_fmap concat] in IH |- *.
  rewrite <- app_assoc, read_string_escape_char by exact Hc.
  rewrite IH. reflexivity.
Qed.

Lemma utf16_bmp s : Forall (fun c => c < 65536) s -> utf16 s = s.
Proof.
  unfold utf16. induction 1 as [|c s Hc _ IH]; [reflexivity|].
  cbn [fmap list_fmap concat] in IH |- *. rewrite IH. unfold utf16_units.
  rewrite (proj2 (N.ltb_lt c 65536) Hc). reflexivity.
Qed.


Lemma to_string_of_string s : to_string (of_string s) = s.
Proof.
  unfold to_string, of_string. rewrite <- list_fmap_compose.
  rewrite <- (string_of_list_ascii_of_string s) at 2. f_equal.
  induction (list_ascii_of_string s) as [|a l IH]; [reflexivity|].
  cbn [fmap list_fmap compose]. cbn [fmap] in IH. rewrite IH.
  rewrite ascii_N_embedding. reflexivity.
Qed.

Lemma span_int_token tok text :
  Forall (fun c => is_int_char c = true) tok -> ends_int text ->
  span_int (tok ++ text) = (tok, text).
Proof.
  intros Htok Hend. induction Htok as [|c tok Hc _ IH]; cbn [app span_int].
  - destruct text as [|c text]; [reflexivity|].
    cbn [span_int]. cbn in Hend. rewrite Hend. reflexivity.
  - rewrite Hc, IH. reflexivity.
Qed.

Lemma int_of_string_to_int z :
  NilZero.int_of_string (NilZero.string_of_int (Z.to_int z)) = Some (Z.to_int z).
Proof.
  apply NilZero.isi; destruct z as [|p|p]; cbn [Z.to_int]; try discriminate;
    intros [= H]; exact (Unsigned.to_uint_nonnil p H).
Qed.

Lemma read_int_dumps z text :
  ends_int text -> read_int (dumps_int z ++ text) = Some (z, text).
Proof.
  intros Hend. unfold read_int.
  rewrite (span_int_token _ _ (dumps_int_chars z) Hend).
  unfold dumps_int. rewrite to_string_of_string, int_of_string_to_int.
  rewrite DecimalZ.of_to. reflexivity.
Qed.


Lemma dumps_int_nonempty z : dumps_int z <> [].
Proof.
  unfold dumps_int. destruct (Z.to_int z) as [d|d]; destruct d; discriminate.
Qed.

Lemma is_int_char_range c : is_int_char c = true -> c = 45 \/ 48 <= c <= 57.
Proof.
  unfold is_int_char. intros H. apply orb_true_iff in H as [H|H].
  - apply N.eqb_eq in H. auto.
  - apply andb_true_iff in H as [H1 H2]. apply N.leb_le in H1, H2. auto.
Qed.

Lemma not_ws c : c <> 32 -> c <> 9 -> c <> 10 -> c <> 13 -> is_ws c = false.
Proof.
  intros H1 H2 H3 H4. unfold is_ws.
  rewrite (proj2 (N.eqb_neq c 32) H1), (proj2 (N.eqb_neq c 9) H2),
    (proj2 (N.eqb_neq c 10) H3), (proj2 (N.eqb_neq c 13) H4).
  reflexivity.
Qed.

Lemma skip_ws_head c text : is_ws c = false -> skip_ws (c :: text) = c :: text.
Proof. intros H. cbn [skip_ws]. rewrite H. reflexivity. Qed.

(** What [dumps_value] writes starts with a quote, a sign or a digit. *)
Lemma dumps_value_head v text :
  exists c rest, dumps_value v ++ text = c :: rest /\ is_ws c = false /\
                 (c = 34 \/ is_int_char c = true).
Proof.
  destruct v as [s|z]; cbn [dumps_value].
  - unfold dumps_str, quote. cbn [app]. eexists _, _.
    split; [reflexivity|]. split; [reflexivity|]. left; reflexivity.
  - pose proof (dumps_int_chars z) as Hc. pose proof (dumps_int_nonempty z) as Hn.
    destruct (dumps_int z) as [|c tok]; [contradiction|].
    inversion Hc as [|? ? Hc1 _]; subst.
    cbn [app]. eexists _, _. split; [reflexivity|]. split; [|right; exact Hc1].
    destruct (is_int_char_range c Hc1); apply not_ws; lia.
Qed.

Lemma read_value_dumps v text :
  python_value v -> ends_int text ->
  read_value (dumps_value v ++ text) = Some (read_back_value v, text).
Proof.
  intros Hv Hend. destruct v as [s|z]; cbn [dumps_value read_back_value].
  - unfold dumps_str, quote. rewrite <- !app_assoc. cbn [app read_value].
    change (34 =? 34) with true. cbv iota.
    rewrite read_string_escaped by exact Hv. reflexivity.
  - pose proof (read_int_dumps z text Hend) as Hr.
    pose proof (dumps_int_chars z) as Hc. pose proof (dumps_int_nonempty z) as Hn.
    destruct (dumps_int z) as [|c tok]; [contradiction|].
    inversion Hc as [|? ? Hc1 _]; subst.
    cbn [app] in Hr |- *. unfold read_value.
    replace (c =? 34) with false
      by (symmetry; apply N.eqb_neq; destruct (is_int_char_range c Hc1); lia).
    rewrite Hr. reflexivity.
Qed.

Lemma read_item_dumps kv text :
  python_item kv -> ends_item text ->
  read_item (dumps_item kv ++ text) = Some (read_back kv, text).
Proof.
  intros [Hk Hv] (c & rest & -> & Hc). destruct kv as [k v]. cbn [fst snd] in *.
  unfold dumps_item, read_item, read_back. cbn [fst snd].
  unfold dumps_str at 1. unfold quote. rewrite <- !app_assoc. cbn [app].
  rewrite skip_ws_head by reflexivity. change (34 =? 34) with true. cbv iota.
  rewrite read_string_escaped by exact Hk.
  rewrite skip_ws_head by reflexivity. change (58 =? 58) with true. cbv iota.
  change (skip_ws (32 :: ?t)) with (skip_ws t).
  destruct (dumps_value_head v (c :: rest)) as (c' & rest' & E & Hws & _).
  assert (Hskip : skip_ws (dumps_value v ++ c :: rest) = dumps_value v ++ c :: rest)
    by (rewrite E; apply skip_ws_head, Hws).
  cbn [skip_ws]. change (is_ws 32) with true. cbv iota. rewrite Hskip.
  rewrite read_value_dumps; [|exact Hv|].
  - rewrite skip_ws_head by (destruct Hc as [-> | ->]; reflexivity). reflexivity.
  - destruct Hc as [-> | ->]; reflexivity.
Qed.

Lemma read_items_space fuel text :
  read_items fuel (32 :: text) = read_items fuel text.
Proof. destruct fuel; reflexivity. Qed.

Lemma read_items_join d fuel text :
  d <> [] -> Forall python_item d -> (length d <= fuel)%nat ->
  read_items fuel (join_items (dumps_item <$> d) ++ 125 :: text)
  = Some (read_back <$> d, text).
Proof.
  intros Hne Hd. revert fuel. induction Hd as [|kv d Hkv Hd IH]; intros fuel Hf;
    [contradiction|].
  destruct fuel as [|fuel]; [cbn in Hf; lia|].
  cbn [fmap list_fmap join_items].
  destruct d as [|kv' d].
  - cbn [fmap list_fmap join_items read_items].
    rewrite read_item_dumps; [|exact Hkv|eexists _, _; split; [reflexivity|auto]].
    change (125 =? 44) with false. change (125 =? 125) with true. reflexivity.
  - cbn [fmap list_fmap join_items] in IH |- *.
    rewrite <- !app_assoc. cbn [read_items].
    rewrite read_item_dumps; [|exact Hkv|eexists _, _; split; [reflexivity|auto]].
    cbn [app]. change (44 =? 44) with true. cbv iota.
    rewrite read_items_space.
    rewrite IH; [reflexivity|discriminate|].
    cbn [length] in Hf |- *. lia.
Qed.

Lemma dumps_item_head kv : exists rest, dumps_item kv = 34 :: rest.
Proof. unfold dumps_item, dumps_str, quote. cbn [app]. eauto. Qed.

Lemma join_items_length (items : list str) :
  Forall (fun item => item <> []) items ->
  (length items <= length (join_items items))%nat.
Proof.
  induction 1 as [|item items Hi _ IH]; [reflexivity|].
  cbn [join_items]. destruct item as [|c item]; [contradiction|].
  destruct items as [|item' items]; [cbn [length]; lia|].
  rewrite !length_app. cbn [length] in *. lia.
Qed.

Lemma dumps_items_length (d : json_dict) :
  (length d <= length (join_items (dumps_item <$> d)))%nat.
Proof.
  rewrite <- (length_fmap dumps_item d) at 1. apply join_items_length.
  apply Forall_fmap, Forall_forall. intros kv _.
  destruct (dumps_item_head kv) as [r Hr]. unfold compose. rewrite Hr. discriminate.
Qed.

(** The reader gives back what [json_dumps] wrote, strings as their
    UTF-16 units. *)
Lemma json_loads_dumps d :
  Forall python_item d -> json_loads (json_dumps d) = Some (read_back <$> d).
Proof.
  intros Hd. unfold json_dumps, json_loads. cbn [app].
  rewrite skip_ws_head by reflexivity. change (123 =? 123) with true. cbv iota.
  destruct d as [|kv d]; [reflexivity|].
  assert (Hhead : exists rest,
             join_items (dumps_item <$> kv :: d) ++ [125] = 34 :: rest).
  { cbn [fmap list_fmap join_items]. destruct (dumps_item_head kv) as [r ->].
    destruct (dumps_item <$> d); cbn [app]; eauto. }
  destruct Hhead as [rest Hhead].
  rewrite Hhead at 1. rewrite skip_ws_head by reflexivity.
  change (34 =? 125) with false. cbv iota.
  rewrite read_items_join; [reflexivity|discriminate|exact Hd|].
  rewrite length_app. pose proof (dumps_items_length (kv :: d)). lia.
Qed.

End Writer.

(** *** The pipeline *)

Section Pipeline.

Context (lower : str -> str).
Context (rng : Type) (random_seed : Z -> rng).
Context (random_shuffle : forall A : Type, list A -> rng -> list A * rng).

Hypothesis random_shuffle_perm :
  forall (A : Type) (l : list A) (g : rng), (random_shuffle A l g).1 ≡ₚ l.

Local Open Scope Z_scope.

Lemma is_hard_example_total ex :
  is_hard_example lower ex = Some true \/ is_hard_example lower ex = Some false.
Proof.
  unfold is_hard_example.
  destruct (has_negation lower (hypothesis ex)); [auto|].
  destruct (length (simple_tokenize lower (hypothesis ex)) <=? 10)%nat; [auto|].
  destruct (lexical_overlap_unit lower (premise ex) (hypothesis ex))
    as (r & -> & _).
  destruct (float_ge r float_0_2); auto.
Qed.

Lemma dict_append_keys lab ex (d : label_dict) : (dict_append lab ex d).*1 = d.*1.
Proof.
  unfold dict_append. induction d as [|[k v] d IH]; [reflexivity|].
  cbn [fmap list_fmap fst]. cbn [fmap list_fmap] in IH. rewrite IH.
  destruct (k =? lab); reflexivity.
Qed.

Lemma dict_append_groups P lab ex (d : label_dict) :
  label ex = lab -> P ex -> groups_of P d -> groups_of P (dict_append lab ex d).
Proof.
  intros Hl HP Hd. unfold groups_of, dict_append.
  apply Forall_fmap. eapply Forall_impl; [exact Hd|].
  intros [k v] Hv. cbn in *. destruct (Z.eqb_spec k lab) as [->|]; cbn; [|exact Hv].
  apply Forall_app. split; [exact Hv|]. constructor; [|constructor]. auto.
Qed.

Lemma collect_groups (P : Example -> Prop) train (d : label_dict) :
  groups_of P d ->
  Forall (fun ex => is_hard_example lower ex = Some true -> P ex) train ->
  exists d', collect lower d train = Some d' /\ d'.*1 = d.*1 /\ groups_of P d'.
Proof.
  revert d. induction train as [|ex rest IH]; intros d Hd Ht; cbn [collect].
  - eauto.
  - inversion Ht as [|? ? Hex Hrest]; subst.
    destruct (is_hard_example_total ex) as [E|E]; rewrite E.
    + destruct (dict_in (label ex) d).
      * destruct (IH (dict_append (label ex) ex d)) as (d' & H1 & H2 & H3);
          [apply dict_append_groups; auto|exact Hrest|].
        exists d'. rewrite H1, H2, dict_append_keys. auto.
      * apply IH; assumption.
    + apply IH; assumption.
Qed.

Lemma slice_to_prefix {A} (l : list A) n : exists k, slice_to l n = take k l.
Proof. unfold slice_to. destruct (0 <=? n); eauto. Qed.

Lemma slice_to_length {A} (l : list A) n :
  0 <= n -> Z.of_nat (length (slice_to l n)) <= n.
Proof.
  intros Hn. unfold slice_to. rewrite (proj2 (Z.leb_le 0 n) Hn).
  rewrite length_take. lia.
Qed.

Lemma count_label_app lab l1 l2 :
  count_label lab (l1 ++ l2) = (count_label lab l1 + count_label lab l2)%nat.
Proof. unfold count_label. rewrite filter_app, length_app. reflexivity. Qed.

Lemma count_label_perm lab l1 l2 :
  l1 ≡ₚ l2 -> count_label lab l1 = count_label lab l2.
Proof. intros H. unfold count_label. rewrite H. reflexivity. Qed.

Lemma count_label_other lab l :
  Forall (fun ex => label ex <> lab) l -> count_label lab l = 0%nat.
Proof.
  unfold count_label. induction 1 as [|ex l Hex _ IH]; [reflexivity|].
  rewrite filter_cons_False by exact Hex. exact IH.
Qed.

Lemma count_label_le lab l : (count_label lab l <= length l)%nat.
Proof. apply length_filter. Qed.

(** The sampling loop never raises; what it adds to [selected] comes from
    the groups. *)
Lemma sample_groups_elements (P : Example -> Prop) n (items : label_dict) selected g :
  groups_of P items -> Forall P selected ->
  exists selected' g',
    sample_groups rng random_shuffle n items selected g = Some (selected', g') /\
    Forall P selected'.
Proof.
  revert selected g. induction items as [|[lab exs] rest IH];
    intros selected g Hi Hs; cbn [sample_groups].
  - unfold ret. eauto.
  - inversion Hi as [|? ? Hexs Hrest]; subst. cbn in Hexs.
    unfold bind at 1. unfold shuffle at 1.
    pose proof (random_shuffle_perm _ exs g) as Hp.
    destruct (random_shuffle Example exs g) as [exs' g1]. cbn in Hp.
    apply IH; [exact Hrest|].
    apply Forall_app. split; [exact Hs|].
    destruct (slice_to_prefix exs' n) as [k ->]. apply Forall_take.
    rewrite Hp. eapply Forall_impl; [exact Hexs|]. intros ex [_ H]. exact H.
Qed.

(** With a non-negative bound, a label gains at most [n] examples, and
    only from the group under its own key. *)
Lemma sample_groups_count n (items : label_dict) selected g selected' g' lab :
  0 <= n ->
  groups_of (fun _ => True) items -> NoDup items.*1 ->
  sample_groups rng random_shuffle n items selected g = Some (selected', g') ->
  Z.of_nat (count_label lab selected') <=
    Z.of_nat (count_label lab selected) + (if decide (lab ∈ items.*1) then n else 0).
Proof.
  intros Hn. revert selected g.
  induction items as [|[k exs] rest IH]; intros selected g Hi Hnd; cbn [sample_groups].
  - unfold ret. intros [= <- <-].
    rewrite decide_False by apply not_elem_of_nil. lia.
  - inversion Hi as [|? ? Hexs Hrest]; subst. cbn in Hexs.
    cbn [fmap list_fmap fst] in Hnd. apply NoDup_cons in Hnd as [Hk Hnd].
    unfold bind at 1. unfold shuffle at 1.
    pose proof (random_shuffle_perm _ exs g) as Hp.
    destruct (random_shuffle Example exs g) as [exs' g1]. cbn in Hp.
    intros Hrun. specialize (IH _ _ Hrest Hnd Hrun).
    rewrite count_label_app in IH.
    assert (Hkeep : Forall (fun ex => label ex = k) (slice_to exs' n)).
    { destruct (slice_to_prefix exs' n) as [j ->]. apply Forall_take.
      rewrite Hp. eapply Forall_impl; [exact Hexs|]. intros ex [H _]. exact H. }
    pose proof (slice_to_length exs' n Hn) as Hlen.
    pose proof (count_label_le lab (slice_to exs' n)) as Hcl.
    cbn [fmap list_fmap fst].
    destruct (decide (lab = k)) as [->|Hne].
    + rewrite decide_True by left.
      rewrite decide_False in IH by exact Hk. lia.
    + rewrite (count_label_other lab (slice_to exs' n)) in IH
        by (eapply Forall_impl; [exact Hkeep|]; intros ex ->; congruence).
      destruct (decide (lab ∈ rest.*1)) as [Hin|Hnin].
      * rewrite decide_True by (right; exact Hin). lia.
      * rewrite decide_False
          by (intros [?|?]%elem_of_cons; [congruence|contradiction]). lia.
Qed.


Lemma by_label_init_groups P : groups_of P by_label_init.
Proof. repeat constructor. Qed.

(** What a run of [select] goes through: the filtered split, the groups
    and the selection. *)
Lemma select_run dataset n seed_arg g :
  let train := filter (fun ex => label ex <> -1) dataset in
  exists by_label selected g',
    collect lower by_label_init train = Some by_label /\
    by_label.*1 = [0; 1; 2] /\
    groups_of (fun ex => ex ∈ train /\ is_hard_example lower ex = Some true)
              by_label /\
    sampler rng random_shuffle n by_label (random_seed seed_arg)
      = Some (selected, g') /\
    select lower rng random_seed random_shuffle dataset n seed_arg g
      = Some (selected, g') /\
    main lower rng random_seed random_shuffle dataset n seed_arg g
      = Some (write_jsonl selected, g') /\
    Forall (fun ex => label ex ∈ [0; 1; 2] /\ ex ∈ train /\
                      is_hard_example lower ex = Some true) selected.
Proof.
  intros train.
  set (P := fun ex => ex ∈ train /\ is_hard_example lower ex = Some true).
  destruct (collect_groups P train by_label_init (by_label_init_groups P))
    as (d & Hd & Hk & Hg).
  { apply Forall_forall. intros ex Hin Hh. split; assumption. }
  set (Q := fun ex => label ex ∈ [0; 1; 2] /\ P ex).
  assert (HgQ : groups_of Q d).
  { unfold groups_of in *. rewrite Forall_forall in Hg. apply Forall_forall.
    intros [k v] Hin. specialize (Hg _ Hin). cbn in *.
    eapply Forall_impl; [exact Hg|]. intros ex [Hl HP].
    split; [exact Hl|]. split; [|exact HP].
    rewrite Hl. change k with (k, v).1. rewrite <- Hk.
    apply list_elem_of_fmap. eexists. split; [reflexivity|exact Hin]. }
  destruct (sample_groups_elements Q n d [] (random_seed seed_arg) HgQ
              (Forall_nil_2 _)) as (sel & g1 & Hs & Hsel).
  pose proof (random_shuffle_perm _ sel g1) as Hp.
  destruct (random_shuffle Example sel g1) as [sel' g2] eqn:Esh. cbn in Hp.
  assert (Hsampler : sampler rng random_shuffle n d (random_seed seed_arg)
                     = Some (sel', g2)).
  { unfold sampler, bind. rewrite Hs. unfold shuffle. rewrite Esh. reflexivity. }
  assert (Hselect : select lower rng random_seed random_shuffle dataset n seed_arg g
                    = Some (sel', g2)).
  { unfold select, bind, seed, lift. fold train. rewrite Hd. exact Hsampler. }
  exists d, sel', g2. repeat split; try assumption.
  - unfold main, bind. rewrite Hselect. reflexivity.
  - rewrite Hp. exact Hsel.
Qed.

(** C7: the loop that fills the groups only sees examples whose label is
    not -1; the groups keep the keys 0, 1 and 2, each holds examples of its
    own label only, and what is written holds labels 0, 1 or 2 only. *)
Theorem unlabeled_never_kept dataset max_per_label seed_arg g :
  let train := filter (fun ex => label ex <> -1) dataset in
  Forall (fun ex => label ex <> -1) train /\
  exists by_label selected g',
    collect lower by_label_init train = Some by_label /\
    by_label.*1 = [0; 1; 2] /\
    Forall (fun kv =>
              Forall (fun ex => label ex = kv.1 /\ label ex <> -1 /\
                                ex ∈ train) kv.2) by_label /\
    main lower rng random_seed random_shuffle dataset max_per_label seed_arg g
      = Some (write_jsonl selected, g') /\
    Forall (fun ex => label ex ∈ [0; 1; 2] /\ label ex <> -1) selected.
Proof.
  intros train.
  assert (Htrain : forall ex, ex ∈ train -> label ex <> -1).
  { intros ex Hin. apply list_elem_of_filter in Hin as [H _]. exact H. }
  split; [apply Forall_forall; exact Htrain|].
  destruct (select_run dataset max_per_label seed_arg g)
    as (d & sel & g' & Hc & Hk & Hg & _ & _ & Hm & Hsel).
  exists d, sel, g'. repeat split; try assumption.
  - eapply Forall_impl; [exact Hg|]. intros kv Hv.
    eapply Forall_impl; [exact Hv|]. intros ex (Hl & Hin & _).
    fold train in Hin. auto.
  - eapply Forall_impl; [exact Hsel|]. intros ex (Hl & Hin & _).
    fold train in Hin. auto.
Qed.

(** C6, amended: when [max_per_label] is not negative, the selection that
    is written holds at most [max_per_label] examples of each label. *)
Theorem per_label_cap dataset max_per_label seed_arg g :
  0 <= max_per_label ->
  exists selected g',
    main lower rng random_seed random_shuffle dataset max_per_label seed_arg g
      = Some (write_jsonl selected, g') /\
    forall lab, Z.of_nat (count_label lab selected) <= max_per_label.
Proof.
  intros Hn.
  destruct (select_run dataset max_per_label seed_arg g)
    as (d & sel & g' & _ & Hk & Hg & Hs & _ & Hm & _).
  exists sel, g'. split; [exact Hm|]. intros lab.
  unfold sampler, bind in Hs.
  destruct (sample_groups rng random_shuffle max_per_label d []
              (random_seed seed_arg)) as [[sel0 g1]|] eqn:E; [|discriminate].
  unfold shuffle in Hs.
  pose proof (random_shuffle_perm _ sel0 g1) as Hp.
  destruct (random_shuffle Example sel0 g1) as [sel1 g2].
  injection Hs as <- <-. cbn [fst] in Hp.
  rewrite (count_label_perm lab _ _ Hp).
  assert (Hg1 : groups_of (fun _ => True) d).
  { eapply Forall_impl; [exact Hg|]. intros kv Hv.
    eapply Forall_impl; [exact Hv|]. intros ex [H _]. auto. }
  assert (Hnd : NoDup d.*1) by (rewrite Hk; compute_done).
  pose proof (sample_groups_count max_per_label d [] _ _ _ lab Hn Hg1 Hnd E) as H.
  cbn [count_label filter list_filter length] in H.
  destruct (decide (lab ∈ d.*1)); cbn in H; lia.
Qed.

(** C9: after [random.seed], the sampler's result and the generator it
    leaves do not depend on the state the generator was in before; the same
    holds for the whole of [main]. *)
Theorem sampler_reproducible by_label dataset max_per_label seed_arg g1 g2 :
  bind (seed random_seed seed_arg)
       (fun _ => sampler rng random_shuffle max_per_label by_label) g1
  = bind (seed random_seed seed_arg)
         (fun _ => sampler rng random_shuffle max_per_label by_label) g2 /\
  main lower rng random_seed random_shuffle dataset max_per_label seed_arg g1
  = main lower rng random_seed random_shuffle dataset max_per_label seed_arg g2.
Proof. split; reflexivity. Qed.


(** Whatever selection the writer is given, the file holds its records
    one per line, and each line reads back as the record. *)
Lemma write_jsonl_lines selected :
  Forall (fun ex => python_str (premise ex) /\ python_str (hypothesis ex))
         selected ->
  read_lines (write_jsonl selected)
    = ((fun ex => json_dumps (out_record ex)) <$> selected, []) /\
  Forall (fun ex =>
            head (json_dumps (out_record ex)) = Some 123%N /\
            json_loads (json_dumps (out_record ex)) =
              Some [(of_string "premise", JStr (utf16 (premise ex)));
                    (of_string "hypothesis", JStr (utf16 (hypothesis ex)));
                    (of_string "label", JInt (label ex))]) selected.
Proof.
  intros Hs. split; [apply read_lines_write_jsonl|].
  eapply Forall_impl; [exact Hs|]. intros ex [Hp Hh].
  split; [reflexivity|]. rewrite json_loads_dumps.
  - reflexivity.
  - unfold out_record.
    repeat (constructor; [split; [compute_done|]; cbn [snd python_value]; auto|]).
    constructor.
Qed.


Hypothesis lower_ascii :
  forall text, Forall is_ascii text -> lower text = ascii_lower text.

Lemma simple_tokenize_ascii text :
  Forall is_ascii text ->
  simple_tokenize lower text = simple_tokenize ascii_lower text.
Proof. intros H. unfold simple_tokenize. rewrite lower_ascii by exact H. reflexivity. Qed.

Lemma has_negation_ascii text :
  Forall is_ascii text -> has_negation lower text = has_negation ascii_lower text.
Proof.
  intros H. unfold has_negation, has_negation_in.
  rewrite simple_tokenize_ascii by exact H. reflexivity.
Qed.

Lemma lexical_overlap_ascii prem hyp :
  Forall is_ascii prem -> Forall is_ascii hyp ->
  lexical_overlap lower prem hyp = lexical_overlap ascii_lower prem hyp.
Proof.
  intros Hp Hh. unfold lexical_overlap.
  rewrite !simple_tokenize_ascii by assumption. reflexivity.
Qed.

Lemma is_hard_example_ascii ex :
  Forall is_ascii (premise ex) -> Forall is_ascii (hypothesis ex) ->
  is_hard_example lower ex = is_hard_example ascii_lower ex.
Proof.
  intros Hp Hh. unfold is_hard_example.
  rewrite has_negation_ascii, simple_tokenize_ascii, lexical_overlap_ascii
    by assumption.
  reflexivity.
Qed.

Lemma is_ascii_forallb (text : str) :
  forallb (fun c => (c <? 128)%N) text = true -> Forall is_ascii text.
Proof.
  rewrite forallb_forall, Forall_forall. unfold is_ascii.
  intros H c Hc. apply N.ltb_lt, H, list_elem_of_In, Hc.
Qed.

Lemma random_shuffle_nil A g : (random_shuffle A [] g).1 = [].
Proof. apply Permutation_nil_r, random_shuffle_perm. Qed.

Lemma random_shuffle_singleton A (x : A) g : (random_shuffle A [x] g).1 = [x].
Proof. apply Permutation_singleton_r, random_shuffle_perm. Qed.

Lemma shuffle_nil A g : exists g', shuffle random_shuffle (@nil A) g = Some ([], g').
Proof.
  unfold shuffle. pose proof (random_shuffle_nil A g) as H.
  destruct (random_shuffle A [] g) as [l g']. cbn in H. subst. eauto.
Qed.

Lemma shuffle_singleton A (x : A) g :
  exists g', shuffle random_shuffle [x] g = Some ([x], g').
Proof.
  unfold shuffle. pose proof (random_shuffle_singleton A x g) as H.
  destruct (random_shuffle A [x] g) as [l g']. cbn in H. subst. eauto.
Qed.

(** C2: on the three examples of the scenario, with [max_per_label = 10]
    and seed 1, (a) is rejected for its token ["not"], (b) is accepted
    (no negation, 11 tokens, overlap 1/12 below 0.2), (c) is rejected
    (4 tokens, overlap 1.0), and the output is the one line of (b). *)
Theorem end_to_end_scenario g :
  (of_string "not" ∈ simple_tokenize lower (hypothesis example_a) /\
   of_string "not" ∈ NEGATION_WORDS /\
   has_negation lower (hypothesis example_a) = true /\
   is_hard_example lower example_a = Some false) /\
  (has_negation lower (hypothesis example_b) = false /\
   length (simple_tokenize lower (hypothesis example_b)) = 11%nat /\
   lexical_overlap lower (premise example_b) (hypothesis example_b)
     = int_truediv 1 12 /\
   (exists r, int_truediv 1 12 = Some r /\ float_lt r float_0_2 = true) /\
   is_hard_example lower example_b = Some true) /\
  (length (simple_tokenize lower (hypothesis example_c)) = 4%nat /\
   lexical_overlap lower (premise example_c) (hypothesis example_c)
     = Some float_1_0 /\
   float_ge float_1_0 float_0_2 = true /\
   is_hard_example lower example_c = Some false) /\
  exists g',
    main lower rng random_seed random_shuffle
         [example_a; example_b; example_c] 10 1 g
    = Some (json_dumps (out_record example_b) ++ [10]%N, g') /\
    json_dumps (out_record example_b) =
      of_string "{" ++ quote (of_string "premise") ++ of_string ": "
      ++ quote (of_string "a dog sleeps") ++ of_string ", "
      ++ quote (of_string "hypothesis") ++ of_string ": "
      ++ quote (of_string
           "a completely unrelated group of people are celebrating a festival downtown")
      ++ of_string ", " ++ quote (of_string "label") ++ of_string ": 0}".
Proof.
  assert (Ha : is_hard_example lower example_a = Some false).
  { rewrite is_hard_example_ascii by (apply is_ascii_forallb; reflexivity).
    vm_compute. reflexivity. }
  assert (Hb : is_hard_example lower example_b = Some true).
  { rewrite is_hard_example_ascii by (apply is_ascii_forallb; reflexivity).
    vm_compute. reflexivity. }
  assert (Hc : is_hard_example lower example_c = Some false).
  { rewrite is_hard_example_ascii by (apply is_ascii_forallb; reflexivity).
    vm_compute. reflexivity. }
  split; [|split; [|split]].
  - rewrite has_negation_ascii, simple_tokenize_ascii
      by (apply is_ascii_forallb; reflexivity).
    split; [apply (bool_decide_unpack _); vm_compute; exact I|].
    split; [apply (bool_decide_unpack _); vm_compute; exact I|].
    split; [vm_compute; reflexivity|exact Ha].
  - rewrite has_negation_ascii, simple_tokenize_ascii, lexical_overlap_ascii
      by (apply is_ascii_forallb; reflexivity).
    split; [vm_compute; reflexivity|].
    split; [vm_compute; reflexivity|].
    split; [vm_compute; reflexivity|].
    split; [|exact Hb].
    eexists. split; [vm_compute; reflexivity|]. vm_compute. reflexivity.
  - rewrite simple_tokenize_ascii, lexical_overlap_ascii
      by (apply is_ascii_forallb; reflexivity).
    split; [vm_compute; reflexivity|].
    split; [vm_compute; reflexivity|].
    split; [vm_compute; reflexivity|exact Hc].
  - unfold main, select, sampler, bind, seed, lift.
    replace (filter (fun ex => label ex <> -1) [example_a; example_b; example_c])
      with [example_a; example_b; example_c] by reflexivity.
    cbn [collect]. rewrite Ha, Hb, Hc.
    change (dict_in (label example_b) by_label_init) with true. cbv iota.
    change (dict_append (label example_b) example_b by_label_init)
      with [(0, [example_b]); (1, []); (2, [])].
    cbn [sample_groups]. unfold bind, ret.
    destruct (shuffle_singleton _ example_b (random_seed 1)) as [g1 ->].
    destruct (shuffle_nil Example g1) as [g2 ->].
    destruct (shuffle_nil Example g2) as [g3 ->].
    change (slice_to [example_b] 10) with [example_b].
    change (slice_to (@nil Example) 10) with (@nil Example).
    cbn [app].
    destruct (shuffle_singleton _ example_b g3) as [g4 ->].
    exists g4. split; [unfold write_jsonl; cbn [fmap list_fmap concat]; rewrite app_nil_r; reflexivity|].
    vm_compute. reflexivity.
Qed.


(** A negative [max_per_label] does not empty the groups: the slice drops
    that many examples from the end of each shuffled group. *)
Lemma negative_cap_run seed_arg g :
  exists g',
    main lower rng random_seed random_shuffle
         [example_b; example_b] (-1) seed_arg g
    = Some (write_jsonl [example_b], g').
Proof.
  assert (Hb : is_hard_example lower example_b = Some true).
  { rewrite is_hard_example_ascii by (apply is_ascii_forallb; reflexivity).
    vm_compute. reflexivity. }
  unfold main, select, sampler, bind, seed, lift.
  replace (filter (fun ex => label ex <> -1) [example_b; example_b])
    with [example_b; example_b] by reflexivity.
  cbn [collect]. rewrite Hb.
  change (dict_in (label example_b) by_label_init) with true. cbv iota.
  change (dict_append (label example_b) example_b by_label_init)
    with [(0, [example_b]); (1, []); (2, [])].
  change (dict_in (label example_b) [(0, [example_b]); (1, []); (2, [])])
    with true. cbv iota.
  change (dict_append (label example_b) example_b
            [(0, [example_b]); (1, []); (2, [])])
    with [(0, [example_b; example_b]); (1, []); (2, [])].
  cbn [sample_groups]. unfold bind, ret.
  assert (H2 : exists g1, shuffle random_shuffle [example_b; example_b]
                            (random_seed seed_arg)
                          = Some ([example_b; example_b], g1)).
  { unfold shuffle.
    pose proof (random_shuffle_perm _ [example_b; example_b]
                  (random_seed seed_arg)) as H.
    destruct (random_shuffle Example _ _) as [l g1]. cbn [fst] in H.
    symmetry in H. apply (replicate_Permutation 2 example_b) in H.
    cbn in H. subst. eauto. }
  destruct H2 as [g1 ->].
  destruct (shuffle_nil Example g1) as [g2 ->].
  destruct (shuffle_nil Example g2) as [g3 ->].
  change (slice_to [example_b; example_b] (-1)) with [example_b].
  change (slice_to (@nil Example) (-1)) with (@nil Example).
  cbn [app].
  destruct (shuffle_singleton _ example_b g3) as [g4 ->].
  exists g4. reflexivity.
Qed.

End Pipeline.

(** ** Further properties *)

(** *** Rounding of the quotient *)

Section Rounding.

Local Open Scope Z_scope.

Lemma new_location_loc_of N D :
  0 < D -> new_location D (N mod D) = loc_of N D.
Proof.
  intros HD. pose proof (Z.mod_pos_bound N D HD) as Hr.
  unfold new_location, loc_of, new_location_even, new_location_odd.
  destruct (Z.even D) eqn:Hev; [reflexivity|].
  destruct (Z.eqb_spec (N mod D) 0) as [|Hne]; [reflexivity|]. f_equal.
  assert (Hodd : Z.odd D = true) by (rewrite <- Z.negb_even, Hev; reflexivity).
  apply Z.odd_spec in Hodd as [k Hk].
  destruct (Z.compare_spec (2 * (N mod D) + 1) D);
    destruct (Z.compare_spec (2 * (N mod D)) D); try reflexivity; lia.
Qed.

Lemma loc_of_shr_record_of_loc m l :
  loc_of_shr_record (shr_record_of_loc m l) = l.
Proof. destruct l as [|[]]; reflexivity. Qed.

Lemma represents_of_loc N D :
  represents (shr_record_of_loc (N / D) (loc_of N D)) N D.
Proof.
  split; [apply shr_record_of_loc_m|apply loc_of_shr_record_of_loc].
Qed.


Lemma shr_1_nonneg m r s :
  0 <= m ->
  shr_1 {| shr_m := m; shr_r := r; shr_s := s |}
  = {| shr_m := m / 2; shr_r := Z.odd m; shr_s := r || s |}.
Proof.
  intros Hm. destruct m as [|[p|p|]|p]; cbn [shr_1]; try lia; f_equal.
  - apply Z.div_unique with (r := 1); lia.
  - apply Z.div_unique with (r := 0); lia.
Qed.

Lemma mod_double N D :
  0 < D -> N mod (2 * D) = N mod D + D * (N / D mod 2).
Proof.
  intros HD. rewrite (Z.mul_comm 2 D). apply Z.rem_mul_r; lia.
Qed.

Lemma odd_mod2 m : m mod 2 = if Z.odd m then 1 else 0.
Proof. rewrite Zmod_odd. reflexivity. Qed.

(** One more bit shifted out: the record stands for the quotient by twice
    the divisor. *)
Lemma shr_1_represents mrs N D :
  0 <= N -> 0 < D -> represents mrs N D -> represents (shr_1 mrs) N (2 * D).
Proof.
  intros HN HD [Hm Hl]. destruct mrs as [m r s]. cbn [shr_m] in Hm.
  assert (Hm0 : 0 <= m) by (rewrite Hm; apply Z.div_pos; lia).
  rewrite shr_1_nonneg by exact Hm0. split; cbn [shr_m].
  - rewrite Hm, Z.div_div by lia. f_equal. lia.
  - pose proof (Z.mod_pos_bound N D HD) as Hr.
    unfold loc_of in *. rewrite mod_double by exact HD.
    rewrite <- Hm, odd_mod2. cbn [loc_of_shr_record] in *.
    destruct (Z.eqb_spec (N mod D) 0) as [E|E].
    + destruct r, s; try discriminate Hl. cbn [orb].
      rewrite E. destruct (Z.odd m).
      * rewrite (proj2 (Z.eqb_neq (0 + D * 1) 0)) by lia.
        rewrite (proj2 (Z.compare_eq_iff _ _)) by lia. reflexivity.
      * rewrite (proj2 (Z.eqb_eq (0 + D * 0) 0)) by lia. reflexivity.
    + assert (Hrs : r || s = true) by (destruct r, s; try reflexivity; discriminate Hl).
      rewrite Hrs. destruct (Z.odd m).
      * rewrite (proj2 (Z.eqb_neq (N mod D + D * 1) 0)) by lia.
        rewrite (proj2 (Z.compare_gt_iff _ _)) by lia. reflexivity.
      * rewrite (proj2 (Z.eqb_neq (N mod D + D * 0) 0)) by lia.
        rewrite (proj2 (Z.compare_lt_iff _ _)) by lia. reflexivity.
Qed.

(** Rounding to nearest, ties to even: the result is within half a unit of
    the quotient it stands for. *)
Lemma round_nearest_even_represents mrs N D :
  0 <= N -> 0 < D -> represents mrs N D ->
  let m := round_nearest_even (shr_m mrs) (loc_of_shr_record mrs) in
  N / D <= m <= N / D + 1 /\ 2 * Z.abs (m * D - N) <= D.
Proof.
  intros HN HD [Hm Hl]. cbv zeta. rewrite Hm, Hl.
  pose proof (Z.mod_pos_bound N D HD) as Hr.
  pose proof (Z.div_mod N D ltac:(lia)) as Hdiv.
  unfold loc_of, round_nearest_even.
  destruct (Z.eqb_spec (N mod D) 0) as [E|E]; [split; nia|].
  destruct (Z.compare_spec (2 * (N mod D)) D).
  - destruct (Z.even (N / D)); split; nia.
  - split; nia.
  - split; nia.
Qed.


Lemma Zdigits2_unique m k :
  0 < k -> 2 ^ (k - 1) <= m < 2 ^ k -> Zdigits2 m = k.
Proof.
  intros Hk [Hlo Hhi].
  assert (0 < 2 ^ (k - 1)) by (apply Z.pow_pos_nonneg; lia).
  destruct m as [|p|p]; try lia. cbn [Zdigits2].
  destruct (digits2_pos_bounds p) as [Plo Phi].
  set (d := Zpos (digits2_pos p)) in *.
  destruct (Z.lt_trichotomy d k) as [Hlt|[Heq|Hgt]]; [|exact Heq|].
  - assert (2 ^ d <= 2 ^ (k - 1)) by (apply Z.pow_le_mono_r; lia). lia.
  - assert (2 ^ k <= 2 ^ (d - 1)) by (apply Z.pow_le_mono_r; lia). lia.
Qed.

(** Normalising a mantissa of 53 or 54 bits: it is kept, or loses its last
    bit and the exponent grows by one. *)
Lemma shr_fexp_normal m e l :
  2 ^ 52 <= m < 2 ^ 54 -> -1074 <= e ->
  shr_fexp prec emax m e l =
    if m <? 2 ^ 53 then (shr_record_of_loc m l, e)
    else (shr_1 (shr_record_of_loc m l), e + 1).
Proof.
  intros Hm He. unfold shr_fexp, shr. rewrite fexp_eq.
  destruct (Z.ltb_spec m (2 ^ 53)) as [Hlt|Hge].
  - rewrite (Zdigits2_unique m 53) by (change (53 - 1) with 52; lia).
    replace (Z.max (53 + e - 53) (-1074) - e) with 0 by lia. reflexivity.
  - rewrite (Zdigits2_unique m 54) by (change (54 - 1) with 53; lia).
    replace (Z.max (54 + e - 53) (-1074) - e) with 1 by lia. reflexivity.
Qed.

Lemma div_eucl_div_mod N D :
  Z.div_eucl N D = (N / D, N mod D).
Proof. unfold Z.div, Z.modulo. destruct (Z.div_eucl N D). reflexivity. Qed.

(** The quotient that the division hands to the rounding, for operands in
    the range of sizes of sets: 53 or 54 significant bits. *)
Lemma div_core_normal a b :
  (a < b)%positive -> Zpos b < 2 ^ 56 ->
  exists s, 53 <= s <= 108 /\
    SFdiv_core_binary prec emax (Zpos a) 0 (Zpos b) 0
    = (Zpos a * 2 ^ s / Zpos b, - s, loc_of (Zpos a * 2 ^ s) (Zpos b)) /\
    2 ^ 52 <= Zpos a * 2 ^ s / Zpos b < 2 ^ 54.
Proof.
  intros Hab Hb. unfold SFdiv_core_binary. cbn [Zdigits2]. rewrite fexp_eq.
  destruct (digits2_pos_bounds a) as [Alo Ahi].
  destruct (digits2_pos_bounds b) as [Blo Bhi].
  set (d1 := Zpos (digits2_pos a)) in *. set (d2 := Zpos (digits2_pos b)) in *.
  assert (Hd1 : 1 <= d1) by (unfold d1; lia).
  assert (Hd12 : d1 <= d2).
  { destruct (Z_le_gt_dec d1 d2); [assumption|].
    assert (2 ^ d2 <= 2 ^ (d1 - 1)) by (apply Z.pow_le_mono_r; lia). lia. }
  assert (Hd2 : d2 <= 56).
  { destruct (Z_le_gt_dec d2 56); [assumption|].
    assert (2 ^ 56 <= 2 ^ (d2 - 1)) by (apply Z.pow_le_mono_r; lia). lia. }
  exists (53 + d2 - d1). split; [lia|].
  replace (Z.min (Z.max (d1 + 0 - (d2 + 0) - 53) (-1074)) (0 - 0))
    with (- (53 + d2 - d1)) by lia.
  replace (0 - 0 - - (53 + d2 - d1)) with (53 + d2 - d1) by lia.
  set (s := 53 + d2 - d1) in *.
  destruct s as [|sp|sp] eqn:Es; try lia. rewrite <- Es.
  rewrite Z.shiftl_mul_pow2 by lia. rewrite div_eucl_div_mod.
  rewrite new_location_loc_of by lia. split; [reflexivity|].
  assert (HS : 2 ^ s * 2 ^ (d1 - 1) = 2 ^ 53 * 2 ^ (d2 - 1)).
  { rewrite <- !Z.pow_add_r by lia. f_equal. lia. }
  assert (Hp1 : 2 ^ d1 = 2 * 2 ^ (d1 - 1)).
  { replace d1 with (Z.succ (d1 - 1)) at 1 by lia. apply Z.pow_succ_r. lia. }
  assert (Hp2 : 2 ^ d2 = 2 * 2 ^ (d2 - 1)).
  { replace d2 with (Z.succ (d2 - 1)) at 1 by lia. apply Z.pow_succ_r. lia. }
  assert (HSpos : 0 < 2 ^ s) by (apply Z.pow_pos_nonneg; lia).
  assert (HP1 : 0 < 2 ^ (d1 - 1)) by (apply Z.pow_pos_nonneg; lia).
  assert (HP2 : 0 < 2 ^ (d2 - 1)) by (apply Z.pow_pos_nonneg; lia).
  change (2 ^ 52) with 4503599627370496.
  change (2 ^ 54) with 18014398509481984.
  change (2 ^ 53) with 9007199254740992 in HS.
  split.
  - apply Z.div_le_lower_bound; [lia|]. nia.
  - apply Z.div_lt_upper_bound; [lia|]. nia.
Qed.


(** The second half of the rounding: from a record of 53 bits to the
    float. [T] tells whether the rounding carried into a 54th bit. *)
Lemma round_finish mrs1 e1 N D1 :
  0 <= N -> 0 < D1 -> represents mrs1 N D1 ->
  2 ^ 52 <= N / D1 < 2 ^ 53 -> -1074 <= e1 <= 900 ->
  exists m e T,
    (let '(mrs2, e2) :=
       shr_fexp prec emax
         (round_nearest_even (shr_m mrs1) (loc_of_shr_record mrs1)) e1 loc_Exact in
     match shr_m mrs2 with
     | 0 => S754_zero false
     | Zpos m => if e2 <=? emax - prec then S754_finite false m e2
                 else S754_infinity false
     | Zneg _ => S754_nan
     end) = S754_finite false m e /\
    2 ^ 52 <= Zpos m < 2 ^ 53 /\
    ((e = e1 /\ T = 1) \/ (e = e1 + 1 /\ T = 2)) /\
    2 * Z.abs (Zpos m * (T * D1) - N) <= T * D1.
Proof.
  intros HN HD Hrep Hq He.
  destruct (round_nearest_even_represents mrs1 N D1 HN HD Hrep) as [Hm2 Hnear].
  set (m2 := round_nearest_even (shr_m mrs1) (loc_of_shr_record mrs1)) in *.
  rewrite (shr_fexp_normal m2 e1 loc_Exact) by lia.
  change (2 ^ 52) with 4503599627370496 in *.
  change (2 ^ 53) with 9007199254740992 in *.
  change (2 ^ 54) with 18014398509481984 in *.
  destruct (Z.ltb_spec m2 9007199254740992) as [Hlt|Hge].
  - cbn [shr_record_of_loc shr_m].
    destruct m2 as [|m|m] eqn:E; try lia.
    exists m, e1, 1.
    rewrite (proj2 (Z.leb_le e1 (emax - prec))) by (unfold emax, prec; lia).
    split; [reflexivity|]. split; [lia|]. split; [auto|].
    rewrite !Z.mul_1_l. exact Hnear.
  - assert (Em2 : m2 = 9007199254740992) by lia. rewrite Em2.
    cbn [shr_record_of_loc shr_1 shr_m].
    exists 4503599627370496%positive, (e1 + 1), 2.
    rewrite (proj2 (Z.leb_le (e1 + 1) (emax - prec))) by (unfold emax, prec; lia).
    split; [reflexivity|]. split; [lia|]. split; [auto|].
    rewrite Em2 in Hnear. lia.
Qed.


(** Division of [a < b] below 2^56: the result is the normal double nearest
    to the exact quotient, within half a unit in the last place. *)
Lemma int_truediv_nearest a b :
  (a < b)%positive -> Zpos b < 2 ^ 56 ->
  exists m e,
    int_truediv (Npos a) (Npos b) = Some (S754_finite false m e) /\
    2 ^ 52 <= Zpos m < 2 ^ 53 /\ -108 <= e <= -52 /\
    2 * Z.abs (Zpos m * Zpos b - Zpos a * 2 ^ (- e)) <= Zpos b.
Proof.
  intros Hab Hb. unfold int_truediv.
  destruct (div_core_normal a b Hab Hb) as (s & Hs & -> & Hq).
  set (N := Zpos a * 2 ^ s) in *. set (D := Zpos b) in *.
  assert (HS : 0 < 2 ^ s) by (apply Z.pow_pos_nonneg; lia).
  assert (HN : 0 <= N) by (unfold N; lia).
  assert (HD : 0 < D) by (unfold D; lia).
  unfold binary_round_aux.
  rewrite (shr_fexp_normal (N / D) (- s) _ Hq) by lia.
  assert (Hfin : forall mrs1 e1 T1,
             represents mrs1 N (T1 * D) -> 2 ^ 52 <= N / (T1 * D) < 2 ^ 53 ->
             (e1 = - s /\ T1 = 1) \/ (e1 = - s + 1 /\ T1 = 2) ->
             exists m e,
               match
                 (let '(mrs2, e2) :=
                    shr_fexp prec emax
                      (round_nearest_even (shr_m mrs1) (loc_of_shr_record mrs1))
                      e1 loc_Exact in
                  match shr_m mrs2 with
                  | 0 => S754_zero false
                  | Zpos m => if e2 <=? emax - prec then S754_finite false m e2
                              else S754_infinity false
                  | Zneg _ => S754_nan
                  end)
               with
               | S754_infinity _ => None
               | r => Some r
               end = Some (S754_finite false m e) /\
               2 ^ 52 <= Zpos m < 2 ^ 53 /\ -108 <= e <= -52 /\
               2 * Z.abs (Zpos m * D - Zpos a * 2 ^ (- e)) <= D).
  { intros mrs1 e1 T1 Hrep Hr He1.
    destruct (round_finish mrs1 e1 N (T1 * D) HN ltac:(lia) Hrep Hr ltac:(lia))
      as (m & e & T & -> & Hm & HT & Hnear).
    exists m, e. split; [reflexivity|]. split; [exact Hm|].
    assert (Hpow : 2 ^ s = T * T1 * 2 ^ (- e) /\ -108 <= e <= -52 /\ 0 < T * T1).
    { assert (H1 : 2 ^ s = 2 * 2 ^ (s - 1))
        by (replace s with (Z.succ (s - 1)) at 1 by lia; apply Z.pow_succ_r; lia).
      assert (H2 : 2 ^ (s - 1) = 2 * 2 ^ (s - 2))
        by (replace (s - 1) with (Z.succ (s - 2)) at 1 by lia;
            apply Z.pow_succ_r; lia).
      destruct HT as [[-> ->]|[-> ->]], He1 as [[-> ->]|[-> ->]].
      - replace (- - s) with s by lia. lia.
      - replace (- (- s + 1)) with (s - 1) by lia. lia.
      - replace (- (- s + 1)) with (s - 1) by lia. lia.
      - replace (- (- s + 1 + 1)) with (s - 2) by lia.
        assert (s <> 53).
        { intros E. destruct Hr as [Hr _]. revert Hr. unfold N. rewrite E.
          change (2 ^ 53) with 9007199254740992.
          change (2 ^ 52) with 4503599627370496.
          intros Hr.
          assert (Zpos a * 9007199254740992 / (2 * D) < 4503599627370496)
            by (apply Z.div_lt_upper_bound; unfold D; lia).
          lia. }
        lia. }
    destruct Hpow as (Hpow & He & HTT). split; [exact He|].
    unfold N in Hnear. rewrite Hpow in Hnear.
    set (X := 2 ^ (- e)) in *. set (TT := T * T1) in *.
    replace (Zpos m * (T * (T1 * D)) - Zpos a * (TT * X))
      with (TT * (Zpos m * D - Zpos a * X)) in Hnear by (unfold TT; ring).
    replace (T * (T1 * D)) with (TT * D) in Hnear by (unfold TT; ring).
    rewrite Z.abs_mul, (Z.abs_eq TT) in Hnear by lia. nia. }
  destruct (Z.ltb_spec (N / D) (2 ^ 53)) as [Hlt|Hge].
  - apply (Hfin _ (- s) 1).
    + rewrite Z.mul_1_l. apply represents_of_loc.
    + rewrite Z.mul_1_l. lia.
    + auto.
  - apply (Hfin _ (- s + 1) 2).
    + apply shr_1_represents; [exact HN|exact HD|apply represents_of_loc].
    + rewrite (Z.mul_comm 2 D), <- Z.div_div by lia.
      change (2 ^ 52) with 4503599627370496 in *.
      change (2 ^ 53) with 9007199254740992 in *.
      change (2 ^ 54) with 18014398509481984 in *.
      split.
      * apply Z.div_le_lower_bound; lia.
      * apply Z.div_lt_upper_bound; lia.
    + auto.
Qed.


Lemma float_lt_finite m e m' e' :
  float_lt (S754_finite false m e) (S754_finite false m' e')
  = (e <? e') || ((e =? e') && (Zpos m <? Zpos m')).
Proof.
  unfold float_lt, SFltb, SFcompare. rewrite Pos.compare_cont_spec.
  cbn [Pos.switch_Eq]. change (Zpos m <? Zpos m') with (m <? m')%positive.
  destruct (Z.compare_spec e e') as [->|H|H].
  - rewrite Z.ltb_irrefl, Z.eqb_refl. cbn [orb andb]. unfold Pos.ltb.
    destruct (m ?= m')%positive; reflexivity.
  - rewrite (proj2 (Z.ltb_lt e e') H). reflexivity.
  - rewrite (proj2 (Z.ltb_ge e e')) by lia.
    rewrite (proj2 (Z.eqb_neq e e')) by lia. reflexivity.
Qed.

(** For operands below 2^56 the comparison of the quotient with the double
    0.2 is the comparison of the exact quotient with 1/5. *)
Lemma int_truediv_lt_0_2 a b :
  (a <= b)%positive -> Zpos b < 2 ^ 56 ->
  exists r, int_truediv (Npos a) (Npos b) = Some r /\
            float_lt r float_0_2 = (5 * Zpos a <? Zpos b).
Proof.
  intros Hab Hb. destruct (Pos.eq_dec a b) as [->|Hne].
  - exists float_1_0. split.
    + unfold int_truediv. rewrite div_core_eq. reflexivity.
    + rewrite (proj2 (Z.ltb_ge _ _)) by lia. reflexivity.
  - destruct (int_truediv_nearest a b ltac:(lia) Hb) as (m & e & -> & Hm & He & Hn).
    eexists. split; [reflexivity|]. unfold float_0_2. rewrite float_lt_finite.
    change (2 ^ 52) with 4503599627370496 in *.
    change (2 ^ 53) with 9007199254740992 in *.
    change (2 ^ 56) with 72057594037927936 in *.
    assert (Ha : 0 < Zpos a) by lia.
    destruct (Z.ltb_spec e (-55)) as [Hlt|Hge]; cbn [orb].
    + symmetry. apply Z.ltb_lt.
      assert (HX : 2 ^ 56 <= 2 ^ (- e)) by (apply Z.pow_le_mono_r; lia).
      change (2 ^ 56) with 72057594037927936 in HX.
      set (X := 2 ^ (- e)) in *.
      assert (Zpos a * 72057594037927936 <= Zpos a * X) by nia.
      nia.
    + destruct (Z.eqb_spec e (-55)) as [->|Hne']; cbn [andb].
      * change (2 ^ (- -55)) with 36028797018963968 in Hn.
        destruct (Z.ltb_spec (Zpos m) 7205759403792794);
          destruct (Z.ltb_spec (5 * Zpos a) (Zpos b)); try reflexivity; nia.
      * symmetry. apply Z.ltb_ge.
        assert (HX : 2 ^ (- e) <= 2 ^ 54) by (apply Z.pow_le_mono_r; lia).
        assert (HX0 : 0 < 2 ^ (- e)) by (apply Z.pow_pos_nonneg; lia).
        change (2 ^ 54) with 18014398509481984 in HX.
        set (X := 2 ^ (- e)) in *.
        assert (Zpos a * X <= Zpos a * 18014398509481984) by nia.
        nia.
Qed.

End Rounding.

(** *** The tokenizer as a whole *)

Section TokenizerMore.

Context (lower : str -> str).

Lemma split_re_sub_runs b word text :
  (b = true -> word = []) ->
  split_from word (re_sub_runs b text) = az09_runs_from word text.
Proof.
  revert b word. induction text as [|c rest IH]; intros b word Hb; [reflexivity|].
  cbn [re_sub_runs az09_runs_from]. destruct (az09 c) eqn:Hc.
  - cbn [split_from]. rewrite (az09_not_space c Hc). apply IH. discriminate.
  - destruct b.
    + rewrite (Hb eq_refl). rewrite IH by reflexivity. reflexivity.
    + cbn [split_from]. change (isspace 32) with true. cbv iota.
      rewrite IH by reflexivity. reflexivity.
Qed.

Lemma filter_all {A} (P : A -> Prop) `{forall x, Decision (P x)} (l : list A) :
  Forall P l -> filter P l = l.
Proof.
  induction 1 as [|x l Hx _ IH]; [reflexivity|].
  rewrite filter_cons_True by exact Hx. rewrite IH. reflexivity.
Qed.

Lemma simple_tokenize_split text :
  simple_tokenize lower text = split (re_sub_not_az09 (lower text)).
Proof.
  unfold simple_tokenize. apply filter_all.
  eapply Forall_impl; [apply (split_words (fun _ => True))|].
  - apply Forall_forall. auto.
  - intros w [Hw _]. exact Hw.
Qed.

Lemma simple_tokenize_az09_runs text :
  simple_tokenize lower text = az09_runs (lower text).
Proof.
  rewrite simple_tokenize_split. unfold split, re_sub_not_az09, az09_runs.
  apply split_re_sub_runs. discriminate.
Qed.

(** X1: the tokens are exactly the maximal runs of characters of [a-z0-9]
    of the lower-cased text, in order; the filter [if t] of the
    comprehension never drops anything, since [split()] yields no empty
    string. *)
Theorem simple_tokenize_runs text :
  simple_tokenize lower text = az09_runs (lower text) /\
  simple_tokenize lower text = split (re_sub_not_az09 (lower text)).
Proof.
  split; [apply simple_tokenize_az09_runs|apply simple_tokenize_split].
Qed.

Lemma flush_app word l1 l2 : flush word l1 ++ l2 = flush word (l1 ++ l2).
Proof. destruct word; reflexivity. Qed.

Lemma az09_runs_from_sep word x c y :
  az09 c = false ->
  az09_runs_from word (x ++ c :: y) = az09_runs_from word x ++ az09_runs y.
Proof.
  intros Hc. revert word. induction x as [|d x IH]; intros word; cbn [app az09_runs_from].
  - rewrite Hc. rewrite flush_app. reflexivity.
  - destruct (az09 d); [apply IH|]. rewrite IH, flush_app. reflexivity.
Qed.

Lemma az09_runs_sep x c y :
  az09 c = false -> az09_runs (x ++ c :: y) = az09_runs x ++ az09_runs y.
Proof. apply az09_runs_from_sep. Qed.

Lemma az09_runs_from_word word w :
  Forall (fun c => az09 c = true) w ->
  az09_runs_from word w = flush (rev w ++ word) [].
Proof.
  intros Hw. revert word. induction Hw as [|c w Hc _ IH]; intros word; [reflexivity|].
  cbn [az09_runs_from]. rewrite Hc, IH. cbn [rev]. rewrite <- app_assoc. reflexivity.
Qed.

Lemma az09_runs_word w :
  w <> [] -> Forall (fun c => az09 c = true) w -> az09_runs w = [w].
Proof.
  intros Hne Hw. unfold az09_runs. rewrite az09_runs_from_word by exact Hw.
  rewrite app_nil_r. destruct (rev w) as [|c r] eqn:E.
  - apply (f_equal (@rev N)) in E. rewrite rev_involutive in E. contradiction.
  - unfold flush. rewrite <- E, rev_involutive. reflexivity.
Qed.

Lemma az09_runs_join words :
  Forall token words -> az09_runs (join_spaces words) = words.
Proof.
  induction 1 as [|w words [Hne Hw] Hws IH]; [reflexivity|].
  cbn [join_spaces]. destruct words as [|w' words].
  - apply az09_runs_word; assumption.
  - rewrite az09_runs_sep by reflexivity. rewrite IH.
    rewrite az09_runs_word by assumption. reflexivity.
Qed.

Hypothesis lower_ascii :
  forall text, Forall is_ascii text -> lower text = ascii_lower text.

Lemma az09_cases c : az09 c = true -> 97 <= c <= 122 \/ 48 <= c <= 57.
Proof.
  unfold az09. intros H. apply orb_true_iff in H as [H|H];
    apply andb_true_iff in H as [H1 H2]; apply N.leb_le in H1, H2; auto.
Qed.

Lemma ascii_lower_char_fixed c :
  az09 c = true \/ c = 32 -> is_ascii c /\ ascii_lower_char c = c.
Proof.
  unfold is_ascii, ascii_lower_char. intros [H%az09_cases| ->];
    [|split; [lia|reflexivity]].
  split; [lia|].
  destruct (N.leb_spec 65 c); destruct (N.leb_spec c 90); cbn [andb];
    try reflexivity. lia.
Qed.

Lemma join_spaces_chars words :
  Forall token words ->
  Forall (fun c => az09 c = true \/ c = 32) (join_spaces words).
Proof.
  induction 1 as [|w words [_ Hw] _ IH]; [constructor|].
  assert (Hw' : Forall (fun c => az09 c = true \/ c = 32) w)
    by (eapply Forall_impl; [exact Hw|]; auto).
  cbn [join_spaces]. destruct words as [|w' words]; [exact Hw'|].
  apply Forall_app. split; [exact Hw'|]. constructor; [auto|exact IH].
Qed.

Lemma lower_fixed text :
  Forall (fun c => az09 c = true \/ c = 32) text -> lower text = text.
Proof.
  intros H. rewrite lower_ascii.
  - unfold ascii_lower. induction H as [|c text Hc _ IH]; [reflexivity|].
    cbn [fmap list_fmap] in IH |- *. rewrite IH.
    rewrite (proj2 (ascii_lower_char_fixed c Hc)). reflexivity.
  - eapply Forall_impl; [exact H|]. intros c Hc.
    apply (ascii_lower_char_fixed c Hc).
Qed.

(** X2: joining tokens with single spaces and tokenizing again gives the
    tokens back; in particular tokenizing is idempotent on its own output
    ([lower] lower-cases ASCII text as ASCII). *)
Theorem simple_tokenize_join_spaces text words :
  (Forall token words -> simple_tokenize lower (join_spaces words) = words) /\
  simple_tokenize lower (join_spaces (simple_tokenize lower text))
  = simple_tokenize lower text.
Proof.
  assert (H : forall ws, Forall token ws ->
                         simple_tokenize lower (join_spaces ws) = ws).
  { intros ws Hws. rewrite simple_tokenize_az09_runs.
    rewrite lower_fixed by (apply join_spaces_chars, Hws).
    apply az09_runs_join, Hws. }
  split; [apply H|]. apply H. apply simple_tokenize_tokens.
Qed.

(** X3: for ASCII texts, a separator outside [a-z0-9A-Z] splits the work:
    the tokens of [text1 sep text2] are those of [text1] followed by those
    of [text2], and a negation is found in the whole exactly when it is found
    in one of the parts. *)
Theorem simple_tokenize_separator text1 sep text2 :
  Forall is_ascii text1 -> Forall is_ascii text2 ->
  is_ascii sep -> az09 (ascii_lower_char sep) = false ->
  simple_tokenize lower (text1 ++ sep :: text2)
  = simple_tokenize lower text1 ++ simple_tokenize lower text2 /\
  has_negation lower (text1 ++ sep :: text2)
  = has_negation lower text1 || has_negation lower text2.
Proof.
  intros H1 H2 Hs Hsep.
  assert (H : simple_tokenize lower (text1 ++ sep :: text2)
              = simple_tokenize lower text1 ++ simple_tokenize lower text2).
  { rewrite !simple_tokenize_az09_runs.
    rewrite !lower_ascii; try assumption.
    - unfold ascii_lower. rewrite fmap_app. cbn [fmap list_fmap].
      apply az09_runs_sep. exact Hsep.
    - apply Forall_app. split; [exact H1|]. constructor; [exact Hs|exact H2]. }
  split; [exact H|]. unfold has_negation, has_negation_in.
  rewrite H. apply existsb_app.
Qed.

(** X15: ASCII letter case does not matter: two ASCII texts that are equal
    once lower-cased have the same tokens and the same negation verdict, and
    two examples whose premises and hypotheses are equal up to ASCII case get
    the same overlap and the same decision. *)
Theorem ascii_case_insensitive ex1 ex2 :
  Forall is_ascii (premise ex1) -> Forall is_ascii (premise ex2) ->
  Forall is_ascii (hypothesis ex1) -> Forall is_ascii (hypothesis ex2) ->
  ascii_lower (premise ex1) = ascii_lower (premise ex2) ->
  ascii_lower (hypothesis ex1) = ascii_lower (hypothesis ex2) ->
  simple_tokenize lower (hypothesis ex1) = simple_tokenize lower (hypothesis ex2) /\
  has_negation lower (hypothesis ex1) = has_negation lower (hypothesis ex2) /\
  lexical_overlap lower (premise ex1) (hypothesis ex1)
  = lexical_overlap lower (premise ex2) (hypothesis ex2) /\
  is_hard_example lower ex1 = is_hard_example lower ex2.
Proof.
  intros Hp1 Hp2 Hh1 Hh2 Ep Eh.
  assert (Tp : simple_tokenize lower (premise ex1)
               = simple_tokenize lower (premise ex2))
    by (unfold simple_tokenize; rewrite !lower_ascii, Ep by assumption;
        reflexivity).
  assert (Th : simple_tokenize lower (hypothesis ex1)
               = simple_tokenize lower (hypothesis ex2))
    by (unfold simple_tokenize; rewrite !lower_ascii, Eh by assumption;
        reflexivity).
  assert (Hn : has_negation lower (hypothesis ex1)
               = has_negation lower (hypothesis ex2))
    by (unfold has_negation, has_negation_in; rewrite Th; reflexivity).
  assert (Ho : lexical_overlap lower (premise ex1) (hypothesis ex1)
               = lexical_overlap lower (premise ex2) (hypothesis ex2))
    by (unfold lexical_overlap; rewrite Tp, Th; reflexivity).
  split; [exact Th|]. split; [exact Hn|]. split; [exact Ho|].
  unfold is_hard_example. rewrite Hn, Th, Ho. reflexivity.
Qed.

End TokenizerMore.

(** *** Overlap and threshold *)

Section HeuristicsMore.

Context (lower : str -> str).

Lemma int_truediv_same n : (0 < n)%nat ->
  int_truediv (N.of_nat n) (N.of_nat n) = Some float_1_0.
Proof.
  intros Hn. destruct (N.of_nat n) as [|p] eqn:E; [lia|].
  unfold int_truediv. rewrite div_core_eq. reflexivity.
Qed.

Lemma token_set_nonempty (toks : list str) :
  toks <> [] -> (0 < size (list_to_set toks : gset str))%nat.
Proof.
  intros Hne. destruct toks as [|t toks]; [contradiction|].
  assert (H : size (list_to_set (t :: toks) : gset str) <> 0%nat).
  { intros H. apply size_empty_inv in H.
    assert (Ht : t ∈ (list_to_set (t :: toks) : gset str))
      by (apply elem_of_list_to_set; left).
    rewrite H in Ht. apply (not_elem_of_empty (C := gset str) t). exact Ht. }
  lia.
Qed.

(** X4: when premise and hypothesis have the same set of tokens the overlap
    is exactly 1.0 (0.0 if there is no token at all), and the example is
    rejected whatever its length. *)
Theorem lexical_overlap_same_tokens prem hyp :
  (list_to_set (simple_tokenize lower prem) : gset str)
  = list_to_set (simple_tokenize lower hyp) ->
  lexical_overlap lower prem hyp
  = Some (if decide (simple_tokenize lower prem = []) then float_0_0
          else float_1_0) /\
  forall ex, premise ex = prem -> hypothesis ex = hyp ->
             is_hard_example lower ex = Some false.
Proof.
  intros HAB.
  assert (Hov : lexical_overlap lower prem hyp
                = Some (if decide (simple_tokenize lower prem = []) then float_0_0
                        else float_1_0)).
  { unfold lexical_overlap. rewrite <- HAB.
    set (A := list_to_set (simple_tokenize lower prem) : gset str).
    destruct (decide (simple_tokenize lower prem = [])) as [E|E].
    - assert (A = ∅) as -> by (unfold A; rewrite E; reflexivity).
      reflexivity.
    - assert (HA : A <> ∅).
      { intros H. pose proof (token_set_nonempty _ E) as Hs. fold A in Hs.
        rewrite H, size_empty in Hs. lia. }
      rewrite (bool_decide_eq_false_2 _ HA). cbn [orb].
      replace (A ∩ A) with A by (symmetry; apply (idemp_L (∩))).
      replace (A ∪ A) with A by (symmetry; apply (idemp_L (∪))).
      apply int_truediv_same. apply (token_set_nonempty _ E). }
  split; [exact Hov|]. intros ex <- <-. unfold is_hard_example.
  destruct (has_negation lower (hypothesis ex)); [reflexivity|].
  destruct (Nat.leb_spec (length (simple_tokenize lower (hypothesis ex))) 10)
    as [|Hlen]; [reflexivity|].
  rewrite Hov. destruct (decide (simple_tokenize lower (premise ex) = [])) as [E|E].
  - exfalso. assert (Hh : simple_tokenize lower (hypothesis ex) <> [])
      by (intros H; rewrite H in Hlen; cbn in Hlen; lia).
    pose proof (token_set_nonempty _ Hh) as Hs. rewrite <- HAB, E in Hs.
    cbn in Hs. rewrite size_empty in Hs. lia.
  - reflexivity.
Qed.

(** X5: when premise and hypothesis share no token the overlap is exactly
    0.0, and the example is decided by negation and length alone; this is
    also the case of a premise without any token. *)
Theorem lexical_overlap_disjoint prem hyp :
  (forall t, t ∈ simple_tokenize lower prem -> t ∉ simple_tokenize lower hyp) ->
  lexical_overlap lower prem hyp = Some float_0_0 /\
  forall ex, premise ex = prem -> hypothesis ex = hyp ->
    is_hard_example lower ex
    = Some (negb (has_negation lower hyp)
            && (10 <? length (simple_tokenize lower hyp))%nat).
Proof.
  intros Hdis.
  assert (Hov : lexical_overlap lower prem hyp = Some float_0_0).
  { unfold lexical_overlap.
    set (A := list_to_set (simple_tokenize lower prem) : gset str).
    set (B := list_to_set (simple_tokenize lower hyp) : gset str).
    destruct (bool_decide (A = ∅) || bool_decide (B = ∅)) eqn:E; [reflexivity|].
    apply orb_false_iff in E as [EA EB]. apply bool_decide_eq_false in EA, EB.
    assert (HI : A ∩ B = ∅).
    { apply set_eq. intros t. rewrite elem_of_intersection. unfold A, B.
      rewrite !elem_of_list_to_set. split; [|intros H; inversion H].
      intros [H1 H2]. destruct (Hdis t H1 H2). }
    rewrite HI, size_empty. cbn [N.of_nat].
    assert (Hs : size (A ∪ B) <> 0%nat).
    { intros H. apply size_empty_inv in H. apply EA.
      apply set_eq. intros t. split; [|intros Ht; inversion Ht].
      intros Ht. assert (t ∈ A ∪ B) by (apply elem_of_union; auto).
      rewrite (leibniz_equiv _ _ H) in *. assumption. }
    destruct (N.of_nat (size (A ∪ B))) eqn:Eu; [lia|reflexivity]. }
  split; [exact Hov|]. intros ex <- <-. unfold is_hard_example. rewrite Hov.
  destruct (has_negation lower (hypothesis ex)); [reflexivity|].
  destruct (Nat.leb_spec (length (simple_tokenize lower (hypothesis ex))) 10)
    as [H|H].
  - rewrite (proj2 (Nat.ltb_ge _ _)) by lia. reflexivity.
  - rewrite (proj2 (Nat.ltb_lt _ _)) by lia. reflexivity.
Qed.


Local Open Scope Z_scope.

Lemma lexical_overlap_cases prem hyp :
  let A : gset str := list_to_set (simple_tokenize lower prem) in
  let B : gset str := list_to_set (simple_tokenize lower hyp) in
  (size (A ∩ B) <= size (A ∪ B))%nat /\
  ((A = ∅ \/ B = ∅) /\ size (A ∩ B) = 0%nat /\
   lexical_overlap lower prem hyp = Some float_0_0
   \/
   (0 < size (A ∪ B))%nat /\
   lexical_overlap lower prem hyp
   = int_truediv (N.of_nat (size (A ∩ B))) (N.of_nat (size (A ∪ B)))).
Proof.
  intros A B.
  assert (Hle : (size (A ∩ B) <= size (A ∪ B))%nat).
  { apply subseteq_size. intros x Hx.
    apply elem_of_intersection in Hx as [Hx _]. apply elem_of_union. auto. }
  split; [exact Hle|].
  assert (H0 : A = ∅ \/ B = ∅ ->
               lexical_overlap lower prem hyp = Some float_0_0).
  { intros H. unfold lexical_overlap. fold A B.
    destruct H as [H|H]; rewrite (bool_decide_eq_true_2 _ H);
      [reflexivity|rewrite orb_true_r; reflexivity]. }
  destruct (decide (A = ∅)) as [EA|EA]; [left|destruct (decide (B = ∅)) as [EB|EB];
                                               [left|right]].
  - split; [auto|]. split; [|apply H0; auto].
    replace (A ∩ B) with (∅ : gset str); [apply size_empty|].
    symmetry. apply set_eq. intros t. rewrite elem_of_intersection, EA.
    split; [intros [H _]; exact H|intros H; destruct (not_elem_of_empty t H)].
  - split; [auto|]. split; [|apply H0; auto].
    replace (A ∩ B) with (∅ : gset str); [apply size_empty|].
    symmetry. apply set_eq. intros t. rewrite elem_of_intersection, EB.
    split; [intros [_ H]; exact H|intros H; destruct (not_elem_of_empty t H)].
  - split.
    + assert (size A <> 0%nat)
        by (intros H; apply size_empty_inv in H; apply EA, leibniz_equiv, H).
      assert (size A <= size (A ∪ B))%nat
        by (apply subseteq_size; intros x Hx; apply elem_of_union; auto).
      lia.
    + unfold lexical_overlap. fold A B.
      rewrite (bool_decide_eq_false_2 _ EA), (bool_decide_eq_false_2 _ EB).
      reflexivity.
Qed.

(** X6: for token sets of fewer than 2^56 elements, the comparison of the
    double quotient with the double 0.2 decides exactly whether
    [5 * |A ∩ B| < |A ∪ B|]: an example is accepted exactly when it has no
    negation, more than ten tokens and an exact overlap below 1/5; at
    overlap 1/5 it is rejected. *)
Theorem is_hard_example_exact_threshold ex :
  let A : gset str := list_to_set (simple_tokenize lower (premise ex)) in
  let B : gset str := list_to_set (simple_tokenize lower (hypothesis ex)) in
  Z.of_nat (size (A ∪ B)) < 2 ^ 56 ->
  (exists r, lexical_overlap lower (premise ex) (hypothesis ex) = Some r /\
             float_lt r float_0_2
             = (5 * Z.of_nat (size (A ∩ B)) <? Z.of_nat (size (A ∪ B)))
               || (Z.of_nat (size (A ∪ B)) =? 0)) /\
  is_hard_example lower ex
  = Some (negb (has_negation lower (hypothesis ex))
          && (10 <? length (simple_tokenize lower (hypothesis ex)))%nat
          && (5 * Z.of_nat (size (A ∩ B)) <? Z.of_nat (size (A ∪ B)))).
Proof.
  intros A B Hu.
  destruct (lexical_overlap_cases (premise ex) (hypothesis ex)) as [Hle Hc].
  fold A B in Hle, Hc.
  assert (Hr : exists r,
             lexical_overlap lower (premise ex) (hypothesis ex) = Some r /\
             float_le float_0_0 r = true /\
             float_lt r float_0_2
             = (5 * Z.of_nat (size (A ∩ B)) <? Z.of_nat (size (A ∪ B)))
               || (Z.of_nat (size (A ∪ B)) =? 0)).
  { destruct Hc as [(_ & Hi & ->)|[Hpos ->]].
    - exists float_0_0. split; [reflexivity|]. split; [reflexivity|].
      rewrite Hi. change (5 * Z.of_nat 0) with 0.
      change (float_lt float_0_0 float_0_2) with true. symmetry.
      destruct (Z.ltb_spec 0 (Z.of_nat (size (A ∪ B)))); [reflexivity|].
      rewrite (proj2 (Z.eqb_eq _ 0)) by lia. reflexivity.
    - rewrite (proj2 (Z.eqb_neq (Z.of_nat (size (A ∪ B))) 0)) by lia.
      rewrite orb_false_r.
      destruct (N.of_nat (size (A ∪ B))) as [|b] eqn:Eb; [lia|].
      assert (Hb : Z.of_nat (size (A ∪ B)) = Zpos b) by lia.
      destruct (N.of_nat (size (A ∩ B))) as [|a] eqn:Ea.
      + exists float_0_0. split; [reflexivity|]. split; [reflexivity|].
        replace (Z.of_nat (size (A ∩ B))) with 0 by lia.
        rewrite (proj2 (Z.ltb_lt _ _)) by lia. reflexivity.
      + assert (Ha : Z.of_nat (size (A ∩ B)) = Zpos a) by lia.
        rewrite Ha, Hb in *.
        destruct (int_truediv_lt_0_2 a b ltac:(lia) Hu) as (r & Hr & Hlt).
        destruct (int_truediv_unit a b ltac:(lia)) as (r' & Hr' & H0 & _).
        rewrite Hr in Hr'. injection Hr' as <-.
        exists r. auto. }
  destruct Hr as (r & Hr & H0 & Hlt). split; [exists r; auto|].
  unfold is_hard_example. rewrite Hr.
  rewrite (float_ge_not_lt r float_0_2 H0) by discriminate. rewrite Hlt.
  destruct (has_negation lower (hypothesis ex)); [reflexivity|].
  destruct (Nat.leb_spec (length (simple_tokenize lower (hypothesis ex))) 10)
    as [Hlen|Hlen].
  - rewrite (proj2 (Nat.ltb_ge _ _)) by lia. reflexivity.
  - rewrite (proj2 (Nat.ltb_lt _ _)) by lia. cbn [negb andb].
    assert (Hne : Z.of_nat (size (A ∪ B)) <> 0).
    { assert (Hh : simple_tokenize lower (hypothesis ex) <> [])
        by (intros H; rewrite H in Hlen; cbn in Hlen; lia).
      pose proof (token_set_nonempty _ Hh) as Hs. fold B in Hs.
      assert (size B <= size (A ∪ B))%nat
        by (apply subseteq_size; intros x Hx; apply elem_of_union; auto).
      lia. }
    rewrite (proj2 (Z.eqb_neq _ 0) Hne), orb_false_r.
    destruct (5 * Z.of_nat (size (A ∩ B)) <? Z.of_nat (size (A ∪ B)));
      reflexivity.
Qed.

(** X7: for token sets of fewer than 2^56 elements that overlap without
    being equal, the overlap is the normal double [m * 2^e] nearest to the
    exact quotient: [|m * 2^e - |A ∩ B| / |A ∪ B|| <= 2^e / 2], with a
    mantissa of 53 bits. *)
Theorem lexical_overlap_nearest prem hyp :
  let A : gset str := list_to_set (simple_tokenize lower prem) in
  let B : gset str := list_to_set (simple_tokenize lower hyp) in
  (0 < size (A ∩ B) < size (A ∪ B))%nat ->
  Z.of_nat (size (A ∪ B)) < 2 ^ 56 ->
  exists m e,
    lexical_overlap lower prem hyp = Some (S754_finite false m e) /\
    2 ^ 52 <= Zpos m < 2 ^ 53 /\ -108 <= e <= -52 /\
    2 * Z.abs (Zpos m * Z.of_nat (size (A ∪ B))
               - Z.of_nat (size (A ∩ B)) * 2 ^ (- e))
    <= Z.of_nat (size (A ∪ B)).
Proof.
  intros A B Hi Hu.
  destruct (lexical_overlap_cases prem hyp) as [_ Hc]. fold A B in Hc.
  destruct Hc as [(_ & Hz & _)|[_ ->]]; [lia|].
  destruct (N.of_nat (size (A ∪ B))) as [|b] eqn:Eb; [lia|].
  destruct (N.of_nat (size (A ∩ B))) as [|a] eqn:Ea; [lia|].
  replace (Z.of_nat (size (A ∪ B))) with (Zpos b) in * by lia.
  replace (Z.of_nat (size (A ∩ B))) with (Zpos a) in * by lia.
  apply int_truediv_nearest; [lia|exact Hu].
Qed.

End HeuristicsMore.

(** *** Groups and selection *)

Section PipelineMore.

Context (lower : str -> str).
Context (rng : Type) (random_seed : Z -> rng).
Context (random_shuffle : forall A : Type, list A -> rng -> list A * rng).

Hypothesis random_shuffle_perm :
  forall (A : Type) (l : list A) (g : rng), (random_shuffle A l g).1 ≡ₚ l.

Local Open Scope Z_scope.

Lemma dict_in_false lab (d : label_dict) :
  dict_in lab d = false -> Forall (fun kv => kv.1 <> lab) d.
Proof.
  unfold dict_in. induction d as [|kv d IH]; [constructor|].
  cbn [existsb]. intros H. apply orb_false_iff in H as [H1 H2].
  constructor; [apply Z.eqb_neq, H1|apply IH, H2].
Qed.

Lemma extend_group_hard ex rest lab (d : label_dict) :
  is_hard_example lower ex = Some true -> label ex = lab ->
  extend_group lower rest <$> dict_append lab ex d
  = extend_group lower (ex :: rest) <$> d.
Proof.
  intros Hh Hl. unfold dict_append. rewrite <- list_fmap_compose.
  apply list_fmap_ext. intros i [k v] _. unfold compose, extend_group.
  cbn [fst snd]. destruct (Z.eqb_spec k lab) as [->|Hne]; cbn [fst snd].
  - rewrite filter_cons_True by (split; assumption).
    rewrite <- app_assoc. reflexivity.
  - rewrite filter_cons_False by (intros [_ H]; congruence). reflexivity.
Qed.

Lemma extend_group_skip ex rest (d : label_dict) :
  Forall (fun kv => ~ hard_of_label lower kv.1 ex) d ->
  extend_group lower rest <$> d = extend_group lower (ex :: rest) <$> d.
Proof.
  intros H. apply Forall_fmap_ext. eapply Forall_impl; [exact H|].
  intros [k v] Hk. unfold extend_group. cbn [fst snd] in *.
  rewrite filter_cons_False by exact Hk. reflexivity.
Qed.

(** The loop of lines 96-100 appends to each group the hard examples of its
    label, in the order of the dataset. *)
Lemma collect_extend train (d : label_dict) :
  collect lower d train = Some (extend_group lower train <$> d).
Proof.
  revert d. induction train as [|ex rest IH]; intros d; cbn [collect].
  - f_equal. symmetry. rewrite <- (list_fmap_id d) at 2.
    apply list_fmap_ext. intros i [k v] _. unfold extend_group. cbn.
    rewrite app_nil_r. reflexivity.
  - destruct (is_hard_example_total lower ex) as [E|E]; rewrite E.
    + destruct (dict_in (label ex) d) eqn:Hin.
      * rewrite IH. f_equal. apply extend_group_hard; [exact E|reflexivity].
      * rewrite IH. f_equal. apply extend_group_skip.
        eapply Forall_impl; [apply (dict_in_false _ _ Hin)|].
        intros kv Hk [_ Hl]. congruence.
    + rewrite IH. f_equal. apply extend_group_skip.
      apply Forall_forall. intros kv _ [Hh _]. congruence.
Qed.


(** X8: the loop fills the three groups with the hard examples of label
    0, 1 and 2, each in the order of the dataset; hard examples with any
    other label are dropped, and the loop never raises. *)
Theorem collect_by_label train :
  collect lower by_label_init train
  = Some [(0, filter (hard_of_label lower 0) train);
          (1, filter (hard_of_label lower 1) train);
          (2, filter (hard_of_label lower 2) train)].
Proof. rewrite collect_extend. reflexivity. Qed.

Lemma slice_to_length_eq {A} (l : list A) n :
  length (slice_to l n) = slice_length (length l) n.
Proof.
  unfold slice_to, slice_length. destruct (Z.leb_spec 0 n); rewrite length_take; lia.
Qed.

(** The loop of lines 107-111 extends [selected] by what it keeps of each
    group, in the order of the groups. *)
Lemma sample_groups_kept n (items : label_dict) selected g :
  exists kept g',
    sample_groups rng random_shuffle n items selected g
      = Some (selected ++ concat kept, g') /\
    Forall2 (kept_of n) items kept.
Proof.
  revert selected g. induction items as [|[lab exs] rest IH]; intros selected g;
    cbn [sample_groups].
  - exists [], g. split; [|constructor]. unfold ret. cbn. rewrite app_nil_r.
    reflexivity.
  - unfold bind at 1. unfold shuffle at 1.
    pose proof (random_shuffle_perm _ exs g) as Hp.
    destruct (random_shuffle Example exs g) as [exs' g1]. cbn [fst] in Hp.
    destruct (IH (selected ++ slice_to exs' n) g1) as (kept & g' & -> & Hk).
    exists (slice_to exs' n :: kept), g'. split.
    + cbn [concat]. rewrite app_assoc. reflexivity.
    + constructor; [|exact Hk]. exists exs'. split; [exact Hp|reflexivity].
Qed.

(** A run of [main]: the groups, what is kept of each, and the selection. *)
Lemma main_run dataset n seed_arg g :
  let train := filter (fun ex => label ex <> -1) dataset in
  exists k0 k1 k2 selected g',
    main lower rng random_seed random_shuffle dataset n seed_arg g
      = Some (write_jsonl selected, g') /\
    selected ≡ₚ k0 ++ k1 ++ k2 /\
    kept_of n (0, filter (hard_of_label lower 0) train) k0 /\
    kept_of n (1, filter (hard_of_label lower 1) train) k1 /\
    kept_of n (2, filter (hard_of_label lower 2) train) k2.
Proof.
  intros train. unfold main, select, sampler, bind, seed, lift. fold train.
  rewrite collect_extend. unfold by_label_init.
  cbn [fmap list_fmap]. unfold extend_group. cbn [fst snd app].
  destruct (sample_groups_kept n
              [(0, filter (hard_of_label lower 0) train);
               (1, filter (hard_of_label lower 1) train);
               (2, filter (hard_of_label lower 2) train)] []
              (random_seed seed_arg)) as (kept & g1 & -> & Hk).
  inversion Hk as [|? k0 ? kept1 H0 Hk1]; subst.
  inversion Hk1 as [|? k1 ? kept2 H1 Hk2]; subst.
  inversion Hk2 as [|? k2 ? kept3 H2 Hk3]; subst.
  inversion Hk3; subst.
  cbn [app concat]. rewrite app_nil_r. unfold shuffle.
  pose proof (random_shuffle_perm _ (k0 ++ k1 ++ k2) g1) as Hp.
  destruct (random_shuffle Example (k0 ++ k1 ++ k2) g1) as [sel g2].
  cbn [fst] in Hp. exists k0, k1, k2, sel, g2. unfold ret. auto.
Qed.

Lemma kept_of_length n kv kept :
  kept_of n kv kept -> length kept = slice_length (length kv.2) n.
Proof.
  intros (exs & Hp & ->). rewrite slice_to_length_eq, Hp. reflexivity.
Qed.

Lemma kept_of_sub n kv kept : kept_of n kv kept -> kept ⊆+ kv.2.
Proof.
  intros (exs & Hp & ->). rewrite <- Hp.
  destruct (slice_to_prefix exs n) as [j ->]. apply sublist_submseteq, sublist_take.
Qed.

Lemma kept_of_all n kv kept :
  (Z.of_nat (length kv.2) <= n) -> kept_of n kv kept -> kept ≡ₚ kv.2.
Proof.
  intros Hn (exs & Hp & ->). rewrite <- Hp. unfold slice_to.
  assert (length exs = length kv.2) by (rewrite Hp; reflexivity).
  rewrite (proj2 (Z.leb_le 0 n)) by lia.
  rewrite take_ge by lia. reflexivity.
Qed.

Lemma kept_of_label n k (l : list Example) kept :
  Forall (fun ex => label ex = k) l -> kept_of n (k, l) kept ->
  Forall (fun ex => label ex = k) kept.
Proof.
  intros Hl Hk. apply kept_of_sub in Hk. cbn [snd] in Hk.
  rewrite Forall_forall in Hl. apply Forall_forall. intros ex Hex.
  apply Hl. eapply elem_of_submseteq; eassumption.
Qed.

Lemma filter_hard_label k train :
  Forall (fun ex => label ex = k) (filter (hard_of_label lower k) train).
Proof.
  apply Forall_forall. intros ex [[_ H] _]%list_elem_of_filter. exact H.
Qed.

Lemma count_label_all k l :
  Forall (fun ex => label ex = k) l -> count_label k l = length l.
Proof.
  intros H. unfold count_label. f_equal.
  induction H as [|ex l Hex _ IH]; [reflexivity|].
  rewrite filter_cons_True by exact Hex. rewrite IH. reflexivity.
Qed.

Lemma count_label_none k k' l :
  k <> k' -> Forall (fun ex => label ex = k') l -> count_label k l = 0%nat.
Proof.
  intros Hne H. apply count_label_other. eapply Forall_impl; [exact H|].
  intros ex ->. congruence.
Qed.

(** X9: the number of examples written for each label 0, 1, 2 is the length
    of the slice [[:max_per_label]] of a list as long as the group of hard
    examples of that label: [min max_per_label len] for a non-negative
    bound, [max 0 (len + max_per_label)] for a negative one; no other label
    is written, and the number of lines is the sum of the three. *)
Theorem selection_counts dataset max_per_label seed_arg g :
  let train := filter (fun ex => label ex <> -1) dataset in
  exists selected g',
    main lower rng random_seed random_shuffle dataset max_per_label seed_arg g
      = Some (write_jsonl selected, g') /\
    (forall k, k ∈ [0; 1; 2] ->
       count_label k selected
       = slice_length (length (filter (hard_of_label lower k) train))
                      max_per_label) /\
    (forall k, k ∉ [0; 1; 2] -> count_label k selected = 0%nat) /\
    length selected
    = (slice_length (length (filter (hard_of_label lower 0) train)) max_per_label
       + slice_length (length (filter (hard_of_label lower 1) train)) max_per_label
       + slice_length (length (filter (hard_of_label lower 2) train)) max_per_label)%nat.
Proof.
  intros train.
  destruct (main_run dataset max_per_label seed_arg g)
    as (k0 & k1 & k2 & sel & g' & Hm & Hp & H0 & H1 & H2).
  fold train in H0, H1, H2.
  pose proof (kept_of_label _ _ _ _ (filter_hard_label 0 train) H0) as L0.
  pose proof (kept_of_label _ _ _ _ (filter_hard_label 1 train) H1) as L1.
  pose proof (kept_of_label _ _ _ _ (filter_hard_label 2 train) H2) as L2.
  pose proof (kept_of_length _ _ _ H0) as N0.
  pose proof (kept_of_length _ _ _ H1) as N1.
  pose proof (kept_of_length _ _ _ H2) as N2.
  cbn [snd] in N0, N1, N2.
  exists sel, g'. split; [exact Hm|].
  assert (Hc : forall k, count_label k sel
                         = (count_label k k0 + count_label k k1 + count_label k k2)%nat).
  { intros k. rewrite (count_label_perm k _ _ Hp), !count_label_app. lia. }
  split; [|split].
  - intros k Hk. rewrite Hc.
    apply elem_of_cons in Hk as [->|Hk];
      [|apply elem_of_cons in Hk as [->|Hk];
        [|apply elem_of_cons in Hk as [->|Hk]; [|inversion Hk]]].
    + rewrite (count_label_all 0 k0 L0), (count_label_none 0 1 k1),
        (count_label_none 0 2 k2) by (assumption || lia). lia.
    + rewrite (count_label_none 1 0 k0), (count_label_all 1 k1 L1),
        (count_label_none 1 2 k2) by (assumption || lia). lia.
    + rewrite (count_label_none 2 0 k0), (count_label_none 2 1 k1),
        (count_label_all 2 k2 L2) by (assumption || lia). lia.
  - intros k Hk. rewrite Hc.
    rewrite (count_label_none k 0 k0), (count_label_none k 1 k1),
      (count_label_none k 2 k2); try assumption; try reflexivity;
      intros ->; apply Hk; repeat constructor.
  - rewrite Hp, !length_app. lia.
Qed.


Lemma groups_perm (l : list Example) :
  filter (hard_of_label lower 0) l ++ filter (hard_of_label lower 1) l
  ++ filter (hard_of_label lower 2) l
  ≡ₚ filter (kept_example lower) l.
Proof.
  induction l as [|ex l IH]; [reflexivity|].
  destruct (decide (kept_example lower ex)) as [[Hh Hl]|Hn].
  - rewrite (filter_cons_True (kept_example lower)) by (split; assumption).
    apply elem_of_cons in Hl as [E|Hl];
      [|apply elem_of_cons in Hl as [E|Hl];
        [|apply elem_of_cons in Hl as [E|Hl]; [|inversion Hl]]].
    + rewrite (filter_cons_True (hard_of_label lower 0)) by (split; assumption).
      rewrite !filter_cons_False by (intros [_ H]; lia).
      cbn [app]. rewrite IH. reflexivity.
    + rewrite (filter_cons_True (hard_of_label lower 1)) by (split; assumption).
      rewrite !filter_cons_False by (intros [_ H]; lia).
      cbn [app]. rewrite <- Permutation_middle, IH. reflexivity.
    + rewrite (filter_cons_True (hard_of_label lower 2)) by (split; assumption).
      rewrite !filter_cons_False by (intros [_ H]; lia).
      rewrite app_assoc, <- Permutation_middle, <- app_assoc, IH. reflexivity.
  - rewrite !filter_cons_False; [exact IH|exact Hn| | |];
      intros [Hh Hl]; apply Hn; (split; [exact Hh|]); rewrite Hl;
      repeat constructor.
Qed.

Lemma kept_example_train (dataset : list Example) :
  filter (kept_example lower) (filter (fun ex => label ex <> -1) dataset)
  = filter (kept_example lower) dataset.
Proof.
  rewrite list_filter_filter. apply list_filter_iff. intros ex.
  split; [intros [H _]; exact H|]. intros [Hh Hl]. split; [split; assumption|].
  intros E. rewrite E in Hl.
  repeat (apply elem_of_cons in Hl as [Hl|Hl]; [discriminate|]). inversion Hl.
Qed.

(** X10: the selection is a sub-multiset of the dataset: every written
    example is a hard example of the dataset with label 0, 1 or 2, written
    at most as often as the dataset holds it. *)
Theorem selection_sub_dataset dataset max_per_label seed_arg g :
  exists selected g',
    main lower rng random_seed random_shuffle dataset max_per_label seed_arg g
      = Some (write_jsonl selected, g') /\
    selected ⊆+ filter (kept_example lower) dataset /\
    selected ⊆+ dataset.
Proof.
  destruct (main_run dataset max_per_label seed_arg g)
    as (k0 & k1 & k2 & sel & g' & Hm & Hp & H0 & H1 & H2).
  exists sel, g'. split; [exact Hm|].
  assert (Hs : sel ⊆+ filter (kept_example lower) dataset).
  { rewrite Hp, <- kept_example_train, <- groups_perm.
    apply kept_of_sub in H0, H1, H2. cbn [snd] in *.
    repeat apply submseteq_app; assumption. }
  split; [exact Hs|]. etrans; [exact Hs|]. apply sublist_submseteq, sublist_filter.
Qed.

(** X11: when no group is longer than [max_per_label], the selection is a
    permutation of all the hard examples with label 0, 1 or 2: nothing is
    lost, whatever the seed. *)
Theorem selection_all dataset max_per_label seed_arg g :
  (forall k, k ∈ [0; 1; 2] ->
     Z.of_nat (length (filter (hard_of_label lower k)
                              (filter (fun ex => label ex <> -1) dataset)))
     <= max_per_label) ->
  exists selected g',
    main lower rng random_seed random_shuffle dataset max_per_label seed_arg g
      = Some (write_jsonl selected, g') /\
    selected ≡ₚ filter (kept_example lower) dataset.
Proof.
  intros Hcap.
  destruct (main_run dataset max_per_label seed_arg g)
    as (k0 & k1 & k2 & sel & g' & Hm & Hp & H0 & H1 & H2).
  exists sel, g'. split; [exact Hm|].
  rewrite Hp, <- kept_example_train, <- groups_perm.
  apply kept_of_all in H0, H1, H2;
    try (cbn [snd]; apply Hcap; repeat constructor).
  cbn [snd] in *. rewrite H0, H1, H2. reflexivity.
Qed.

(** X12: with [max_per_label = 0] the output is empty, whatever the
    dataset and the seed. *)
Theorem zero_cap_empty_output dataset seed_arg g :
  exists g',
    main lower rng random_seed random_shuffle dataset 0 seed_arg g
    = Some ([], g').
Proof.
  destruct (main_run dataset 0 seed_arg g)
    as (k0 & k1 & k2 & sel & g' & Hm & Hp & H0 & H1 & H2).
  exists g'. rewrite Hm.
  apply kept_of_length in H0, H1, H2.
  assert (Hlen : length sel = 0%nat).
  { rewrite Hp, !length_app, H0, H1, H2. unfold slice_length.
    change (0 <=? 0) with true. cbv iota. rewrite !Nat.min_0_l. reflexivity. }
  destruct sel; [reflexivity|discriminate].
Qed.

End PipelineMore.

(** *** The output file *)

Section WriterMore.

(** X13: whatever the texts of the selection, the output holds printable
    ASCII characters and newlines only. *)
Theorem write_jsonl_ascii selected :
  Forall (fun c => printable c \/ c = 10) (write_jsonl selected).
Proof.
  unfold write_jsonl. apply Forall_concat, Forall_fmap, Forall_forall.
  intros ex _. unfold compose. apply Forall_app. split.
  - eapply Forall_impl; [apply json_dumps_printable|]. auto.
  - constructor; [right; reflexivity|constructor].
Qed.

Lemma bmp_python_str s : bmp_str s -> python_str s.
Proof.
  unfold bmp_str, python_str. intros H. eapply Forall_impl; [exact H|].
  intros c Hc. cbv beta in *. lia.
Qed.


End WriterMore.

(** *** The statements above at a concrete run *)

Lemma no_shuffle_perm (A : Type) (l : list A) (g : unit) :
  (no_shuffle A l g).1 ≡ₚ l.
Proof. reflexivity. Qed.

(** C6 as stated fails: with [max_per_label = -1] and two hard examples of
    label 0, one example of label 0 is written, and 1 > -1. *)
Lemma per_label_cap_negative_bound :
  main ascii_lower unit seed_unit no_shuffle
       [example_b; example_b] (-1) 42 tt
  = Some (write_jsonl [example_b], tt) /\
  count_label 0 [example_b] = 1%nat /\
  ~ (Z.of_nat (count_label 0 [example_b]) <= -1)%Z.
Proof.
  split; [vm_compute; reflexivity|]. split; [reflexivity|].
  change (count_label 0 [example_b]) with 1%nat. lia.
Qed.


Lemma simple_tokenize_alphabet_run :
  ascii_lower [] = [] /\
  (Forall (fun t => t <> [] /\
                    Forall (fun c => az09 c = true /\ isspace c = false /\
                                     ~ (65 <= c <= 90)) t)
          (simple_tokenize ascii_lower (of_string "Hello, World! It's 9am."))
   /\ simple_tokenize ascii_lower [] = []).
Proof.
  split; [reflexivity|].
  apply (simple_tokenize_alphabet ascii_lower
           (of_string "Hello, World! It's 9am.")).
  reflexivity.
Defined.

Lemma unlabeled_never_kept_run :
  (forall (A : Type) (l : list A) (g : unit), (no_shuffle A l g).1 ≡ₚ l) /\
  (let train := filter (fun ex => label ex <> (-1)%Z)
                       [example_a; example_unlabeled; example_b; example_c] in
   Forall (fun ex => label ex <> (-1)%Z) train /\
   exists by_label selected g',
     collect ascii_lower by_label_init train = Some by_label /\
     by_label.*1 = [0; 1; 2]%Z /\
     Forall (fun kv =>
               Forall (fun ex => label ex = kv.1 /\ label ex <> (-1)%Z /\
                                 ex ∈ train) kv.2) by_label /\
     main ascii_lower unit seed_unit no_shuffle
          [example_a; example_unlabeled; example_b; example_c] 10 1 tt
       = Some (write_jsonl selected, g') /\
     Forall (fun ex => label ex ∈ [0; 1; 2]%Z /\ label ex <> (-1)%Z) selected).
Proof.
  split; [intros A l g; reflexivity|].
  apply (unlabeled_never_kept ascii_lower unit seed_unit no_shuffle).
  intros A l g. reflexivity.
Defined.

Lemma per_label_cap_run :
  (forall (A : Type) (l : list A) (g : unit), (no_shuffle A l g).1 ≡ₚ l) /\
  (0 <= 1)%Z /\
  exists selected g',
    main ascii_lower unit seed_unit no_shuffle
         [example_b; example_a; example_b; example_c; example_b] 1 42 tt
      = Some (write_jsonl selected, g') /\
    forall lab, (Z.of_nat (count_label lab selected) <= 1)%Z.
Proof.
  split; [intros A l g; reflexivity|]. split; [lia|].
  apply (per_label_cap ascii_lower unit seed_unit no_shuffle);
    [intros A l g; reflexivity|lia].
Defined.

Lemma end_to_end_scenario_run :
  (forall (A : Type) (l : list A) (g : unit), (no_shuffle A l g).1 ≡ₚ l) /\
  (forall text, Forall is_ascii text -> ascii_lower text = ascii_lower text) /\
  exists g',
    main ascii_lower unit seed_unit no_shuffle
         [example_a; example_b; example_c] 10 1 tt
    = Some (json_dumps (out_record example_b) ++ [10], g') /\
    json_dumps (out_record example_b) =
      of_string "{" ++ quote (of_string "premise") ++ of_string ": "
      ++ quote (of_string "a dog sleeps") ++ of_string ", "
      ++ quote (of_string "hypothesis") ++ of_string ": "
      ++ quote (of_string
           "a completely unrelated group of people are celebrating a festival downtown")
      ++ of_string ", " ++ quote (of_string "label") ++ of_string ": 0}".
Proof.
  split; [intros A l g; reflexivity|]. split; [intros text _; reflexivity|].
  apply (end_to_end_scenario ascii_lower unit seed_unit no_shuffle).
  - intros A l g. reflexivity.
  - intros text _. reflexivity.
Defined.


Lemma is_hard_example_ignores_label_run :
  premise example_b = premise example_unlabeled /\
  hypothesis example_b = hypothesis example_unlabeled /\
  is_hard_example ascii_lower example_b
  = is_hard_example ascii_lower example_unlabeled.
Proof.
  split; [reflexivity|]. split; [reflexivity|].
  apply (is_hard_example_ignores_label ascii_lower example_b example_unlabeled);
    reflexivity.
Defined.

Lemma simple_tokenize_join_spaces_run :
  (forall text, Forall is_ascii text -> ascii_lower text = ascii_lower text) /\
  ((Forall token [of_string "a"; of_string "dog"; of_string "sleeps"] ->
    simple_tokenize ascii_lower
      (join_spaces [of_string "a"; of_string "dog"; of_string "sleeps"])
    = [of_string "a"; of_string "dog"; of_string "sleeps"]) /\
   simple_tokenize ascii_lower
     (join_spaces (simple_tokenize ascii_lower (of_string "A dog -- asleep!")))
   = simple_tokenize ascii_lower (of_string "A dog -- asleep!")).
Proof.
  split; [intros text _; reflexivity|].
  apply (simple_tokenize_join_spaces ascii_lower).
  intros text _. reflexivity.
Defined.

Lemma simple_tokenize_separator_run :
  (forall text, Forall is_ascii text -> ascii_lower text = ascii_lower text) /\
  Forall is_ascii (of_string "It is not") /\
  Forall is_ascii (of_string "raining") /\
  is_ascii 44 /\ az09 (ascii_lower_char 44) = false /\
  simple_tokenize ascii_lower (of_string "It is not" ++ 44 :: of_string "raining")
  = simple_tokenize ascii_lower (of_string "It is not")
    ++ simple_tokenize ascii_lower (of_string "raining") /\
  has_negation ascii_lower (of_string "It is not" ++ 44 :: of_string "raining")
  = has_negation ascii_lower (of_string "It is not")
    || has_negation ascii_lower (of_string "raining").
Proof.
  assert (H1 : Forall is_ascii (of_string "It is not"))
    by (apply is_ascii_forallb; reflexivity).
  assert (H2 : Forall is_ascii (of_string "raining"))
    by (apply is_ascii_forallb; reflexivity).
  assert (H3 : is_ascii 44) by reflexivity.
  split; [intros text _; reflexivity|].
  split; [exact H1|]. split; [exact H2|]. split; [exact H3|].
  split; [reflexivity|].
  apply (simple_tokenize_separator ascii_lower);
    [intros text _; reflexivity|exact H1|exact H2|exact H3|reflexivity].
Defined.


Lemma lexical_overlap_same_tokens_run :
  (list_to_set (simple_tokenize ascii_lower (premise example_reordered))
     : gset str)
  = list_to_set (simple_tokenize ascii_lower (hypothesis example_reordered)) /\
  lexical_overlap ascii_lower (premise example_reordered)
                  (hypothesis example_reordered)
  = Some (if decide (simple_tokenize ascii_lower (premise example_reordered) = [])
          then float_0_0 else float_1_0) /\
  is_hard_example ascii_lower example_reordered = Some false.
Proof.
  assert (H : (list_to_set (simple_tokenize ascii_lower (premise example_reordered))
                 : gset str)
              = list_to_set
                  (simple_tokenize ascii_lower (hypothesis example_reordered)))
    by (vm_compute; reflexivity).
  split; [exact H|].
  destruct (lexical_overlap_same_tokens ascii_lower _ _ H) as [H1 H2].
  split; [exact H1|]. apply H2; reflexivity.
Defined.

Lemma lexical_overlap_disjoint_run :
  (forall t, t ∈ simple_tokenize ascii_lower (of_string "a dog sleeps") ->
             t ∉ simple_tokenize ascii_lower (of_string "Two cats play.")) /\
  lexical_overlap ascii_lower (of_string "a dog sleeps")
                  (of_string "Two cats play.") = Some float_0_0.
Proof.
  assert (H : forall t,
             t ∈ simple_tokenize ascii_lower (of_string "a dog sleeps") ->
             t ∉ simple_tokenize ascii_lower (of_string "Two cats play.")).
  { apply Forall_forall. apply (bool_decide_unpack _). vm_compute. exact I. }
  split; [exact H|].
  apply (lexical_overlap_disjoint ascii_lower _ _ H).
Defined.

Lemma is_hard_example_exact_threshold_run :
  (Z.of_nat (size ((list_to_set (simple_tokenize ascii_lower (premise example_b))
                      : gset str)
                   ∪ list_to_set
                       (simple_tokenize ascii_lower (hypothesis example_b))))
   < 2 ^ 56)%Z /\
  is_hard_example ascii_lower example_b
  = Some (negb (has_negation ascii_lower (hypothesis example_b))
          && (10 <? length (simple_tokenize ascii_lower (hypothesis example_b)))%nat
          && (5 * Z.of_nat
                    (size ((list_to_set
                              (simple_tokenize ascii_lower (premise example_b))
                              : gset str)
                           ∩ list_to_set
                               (simple_tokenize ascii_lower
                                                (hypothesis example_b))))
              <? Z.of_nat
                   (size ((list_to_set
                             (simple_tokenize ascii_lower (premise example_b))
                             : gset str)
                          ∪ list_to_set
                              (simple_tokenize ascii_lower
                                               (hypothesis example_b)))))%Z).
Proof.
  assert (H : (Z.of_nat
                 (size ((list_to_set
                           (simple_tokenize ascii_lower (premise example_b))
                           : gset str)
                        ∪ list_to_set
                            (simple_tokenize ascii_lower (hypothesis example_b))))
               < 2 ^ 56)%Z) by (vm_compute; reflexivity).
  split; [exact H|].
  apply (is_hard_example_exact_threshold ascii_lower example_b H).
Defined.

Lemma lexical_overlap_nearest_run :
  (0 < size ((list_to_set (simple_tokenize ascii_lower (premise example_b))
                : gset str)
             ∩ list_to_set (simple_tokenize ascii_lower (hypothesis example_b)))
   < size ((list_to_set (simple_tokenize ascii_lower (premise example_b))
              : gset str)
           ∪ list_to_set (simple_tokenize ascii_lower (hypothesis example_b))))%nat /\
  exists m e,
    lexical_overlap ascii_lower (premise example_b) (hypothesis example_b)
    = Some (S754_finite false m e) /\
    (2 ^ 52 <= Zpos m < 2 ^ 53)%Z.
Proof.
  assert (H : (0 < size ((list_to_set
                            (simple_tokenize ascii_lower (premise example_b))
                            : gset str)
                         ∩ list_to_set
                             (simple_tokenize ascii_lower (hypothesis example_b)))
               < size ((list_to_set
                          (simple_tokenize ascii_lower (premise example_b))
                          : gset str)
                       ∪ list_to_set
                           (simple_tokenize ascii_lower
                                            (hypothesis example_b))))%nat)
    by (vm_compute; split; repeat constructor).
  split; [exact H|].
  destruct (lexical_overlap_nearest ascii_lower (premise example_b)
              (hypothesis example_b) H) as (m & e & H1 & H2 & _).
  - vm_compute. reflexivity.
  - exists m, e. split; assumption.
Defined.

Lemma selection_counts_run :
  (forall (A : Type) (l : list A) (g : unit), (no_shuffle A l g).1 ≡ₚ l) /\
  exists selected g',
    main ascii_lower unit seed_unit no_shuffle
         [example_b; example_a; example_b; example_unlabeled; example_b] 2 7 tt
      = Some (write_jsonl selected, g') /\
    count_label 0 selected = 2%nat /\ length selected = 2%nat.
Proof.
  split; [intros A l g; reflexivity|].
  destruct (selection_counts ascii_lower unit seed_unit no_shuffle
              no_shuffle_perm
              [example_b; example_a; example_b; example_unlabeled; example_b]
              2 7 tt) as (sel & g' & Hm & Hc & _ & Hl).
  exists sel, g'. split; [exact Hm|]. split.
  - rewrite (Hc 0%Z) by (repeat constructor). vm_compute. reflexivity.
  - rewrite Hl. vm_compute. reflexivity.
Defined.

Lemma selection_sub_dataset_run :
  (forall (A : Type) (l : list A) (g : unit), (no_shuffle A l g).1 ≡ₚ l) /\
  exists selected g',
    main ascii_lower unit seed_unit no_shuffle
         [example_a; example_b; example_c] 10 1 tt
      = Some (write_jsonl selected, g') /\
    selected ⊆+ filter (kept_example ascii_lower)
                       [example_a; example_b; example_c] /\
    selected ⊆+ [example_a; example_b; example_c].
Proof.
  split; [intros A l g; reflexivity|].
  apply (selection_sub_dataset ascii_lower unit seed_unit no_shuffle).
  intros A l g. reflexivity.
Defined.

Lemma selection_all_run :
  (forall (A : Type) (l : list A) (g : unit), (no_shuffle A l g).1 ≡ₚ l) /\
  (forall k, k ∈ [0; 1; 2]%Z ->
     (Z.of_nat (length (filter (hard_of_label ascii_lower k)
                               (filter (fun ex => label ex <> (-1)%Z)
                                       [example_a; example_b; example_c])))
      <= 10)%Z) /\
  exists selected g',
    main ascii_lower unit seed_unit no_shuffle
         [example_a; example_b; example_c] 10 1 tt
      = Some (write_jsonl selected, g') /\
    selected ≡ₚ filter (kept_example ascii_lower)
                       [example_a; example_b; example_c].
Proof.
  assert (H : forall k, k ∈ [0; 1; 2]%Z ->
     (Z.of_nat (length (filter (hard_of_label ascii_lower k)
                               (filter (fun ex => label ex <> (-1)%Z)
                                       [example_a; example_b; example_c])))
      <= 10)%Z).
  { intros k Hk.
    apply elem_of_cons in Hk as [->|Hk];
      [|apply elem_of_cons in Hk as [->|Hk];
        [|apply elem_of_cons in Hk as [->|Hk]; [|inversion Hk]]];
      vm_compute; discriminate. }
  split; [intros A l g; reflexivity|]. split; [exact H|].
  apply (selection_all ascii_lower unit seed_unit no_shuffle);
    [intros A l g; reflexivity|exact H].
Defined.

Lemma zero_cap_empty_output_run :
  (forall (A : Type) (l : list A) (g : unit), (no_shuffle A l g).1 ≡ₚ l) /\
  exists g',
    main ascii_lower unit seed_unit no_shuffle
         [example_a; example_b; example_c] 0 1 tt
    = Some ([], g').
Proof.
  split; [intros A l g; reflexivity|].
  apply (zero_cap_empty_output ascii_lower unit seed_unit no_shuffle).
  intros A l g. reflexivity.
Defined.


Lemma ascii_case_insensitive_run :
  (forall text, Forall is_ascii text -> ascii_lower text = ascii_lower text) /\
  ascii_lower (premise example_b) = ascii_lower (premise example_shouted) /\
  ascii_lower (hypothesis example_b) = ascii_lower (hypothesis example_shouted) /\
  is_hard_example ascii_lower example_b
  = is_hard_example ascii_lower example_shouted.
Proof.
  split; [intros text _; reflexivity|].
  split; [reflexivity|]. split; [reflexivity|].
  apply (ascii_case_insensitive ascii_lower);
    try (apply is_ascii_forallb; reflexivity); try reflexivity.
Defined.
